(** * Audio player controls of [script.js]

    The section "MUSIC SWAP ICONS" of [src/script.js] wires an [<audio>]
    element to a play button, a seek bar and two time labels.  This file
    embeds that section: the ECMAScript Number operations that [formatTime]
    uses (on IEEE 754 binary64 values), [formatTime] itself, the page objects
    the handlers read and write, and the handlers [setDuration], [togglePlay],
    the [timeupdate] listener and [handleSeek].

    It then embeds the rest of the script: the active page indicator, the
    mobile menu button, [throttle] and [debounce] over a queue of timers, the
    dropdown menus, scroll reveal and the statements at the top level. *)

From Stdlib Require Import ZArith QArith Qround Qabs Bool List String Ascii Lia.
From Stdlib Require Import SpecFloat DecimalString.
From Stdlib Require DecimalN DecimalPos.
Import ListNotations.

Local Open Scope Z_scope.

(** ** ECMAScript Numbers

    A JavaScript Number is an IEEE 754 binary64 value.  [spec_float] is the
    Standard Library's specification of such values (no NaN payload, which
    JavaScript cannot observe either); the format is fixed by [prec] and
    [emax]. *)
Module Num.

Definition prec : Z := 53.
Definition emax : Z := 1024.

Definition number : Type := spec_float.

Definition NaN : number := S754_nan.
Definition Infinity : number := S754_infinity false.
Definition NegInfinity : number := S754_infinity true.

(** A value of the format: the mantissa has at most 53 bits and the exponent
    is the one the format assigns to it. *)
Definition valid (x : number) : bool := valid_binary prec emax x.

(** The Number of an integer literal ([60], [10], [-1] ...). *)
Definition of_Z (z : Z) : number := binary_normalize prec emax z 0 false.

(** [x / y] *)
Definition div (x y : number) : number := SFdiv prec emax x y.

(** [x < y]: [false] when either side is NaN. *)
Definition ltb (x y : number) : bool := SFltb x y.


(** The global [isNaN], on a Number. *)
Definition isNaN (x : number) : bool :=
  match x with
  | S754_nan => true
  | _ => false
  end.

(** The global [isFinite], on a Number. *)
Definition isFinite (x : number) : bool :=
  match x with
  | S754_nan | S754_infinity _ => false
  | _ => true
  end.

(** [x % y], Number::remainder: the result has the sign of the dividend and
    is computed exactly (truncating division), after aligning both operands
    on the smaller exponent. *)
Definition rem (n d : number) : number :=
  match n, d with
  | S754_nan, _ | _, S754_nan => S754_nan
  | S754_infinity _, _ => S754_nan
  | _, S754_infinity _ => n
  | _, S754_zero _ => S754_nan
  | S754_zero _, _ => n
  | S754_finite sn mn en, S754_finite _ md ed =>
      let ez := Z.min en ed in
      let a := cond_Zopp sn (Zpos (fst (shl_align mn en ez))) in
      let b := Zpos (fst (shl_align md ed ez)) in
      binary_normalize prec emax (Z.rem a b) ez sn
  end.

(** [Math.floor(x)]: NaN, the infinities and both zeros are returned as they
    are, and so is a value whose exponent is not negative (it is an integer);
    otherwise the signed mantissa is divided by [2^(-e)], rounding down. *)
Definition floor (x : number) : number :=
  match x with
  | S754_finite s m e =>
      if 0 <=? e then x
      else binary_normalize prec emax
             (Z.shiftr (cond_Zopp s (Zpos m)) (- e)) 0 false
  | _ => x
  end.

(** *** Number::toString, radix 10 *)

Definition pow2Q (e : Z) : Q := Qpower 2 e.
Definition pow10Q (e : Z) : Q := Qpower 10 e.

(** The exact value of a positive finite Number. *)
Definition valueQ (m : positive) (e : Z) : Q := inject_Z (Zpos m) * pow2Q e.

(** The reals that round to [m * 2^e] lie between the midpoints to its two
    neighbours; the lower neighbour is half as far when [m] is the smallest
    normal mantissa. *)
Definition lower_mid (m : positive) (e : Z) : Q :=
  if andb (Zpos m =? 2 ^ (prec - 1)) (3 - emax - prec <? e)
  then inject_Z (4 * Zpos m - 1) * pow2Q (e - 2)
  else inject_Z (2 * Zpos m - 1) * pow2Q (e - 1).

Definition upper_mid (m : positive) (e : Z) : Q :=
  inject_Z (2 * Zpos m + 1) * pow2Q (e - 1).

(** Ties go to the even mantissa, so the midpoints themselves round to
    [m * 2^e] exactly when [m] is even. *)
Definition rounds_to (m : positive) (e : Z) (v : Q) : bool :=
  if Z.even (Zpos m)
  then Qle_bool (lower_mid m e) v && Qle_bool v (upper_mid m e)
  else negb (Qle_bool v (lower_mid m e)) && negb (Qle_bool (upper_mid m e) v).

(** The integer [n] with [10^(n-1) <= v < 10^n], searched upwards from an
    under-estimate. *)
Fixpoint decimal_exponent_from (fuel : nat) (n : Z) (v : Q) : Z :=
  match fuel with
  | O => n
  | S fuel' =>
      if Qle_bool (pow10Q n) v then decimal_exponent_from fuel' (n + 1) v
      else n
  end.

Definition decimal_exponent (m : positive) (e : Z) : Z :=
  let b := Z.log2 (Zpos m) + e in
  decimal_exponent_from 8 (b * 30102 / 100000 - 2) (valueQ m e).

Definition Qdist (a b : Q) : Q := Qabs (a - b).

(** Of the candidate pairs [(n, s)], the one whose value [s * 10^(n-k)]
    is closest to [v]; an even [s] wins a tie. *)
Fixpoint closest (k : Z) (v : Q) (cands : list (Z * Z))
  : option (Z * Z) :=
  match cands with
  | [] => None
  | (n, s) :: rest =>
      match closest k v rest with
      | None => Some (n, s)
      | Some (n', s') =>
          let d := Qdist (inject_Z s * pow10Q (n - k)) v in
          let d' := Qdist (inject_Z s' * pow10Q (n' - k)) v in
          match Qcompare d d' with
          | Lt => Some (n, s)
          | Gt => Some (n', s')
          | Eq => if Z.even s then Some (n, s) else Some (n', s')
          end
      end
  end.

(** The candidates with [k] digits: the two [k]-digit integers around
    [v / 10^(n0-k)], and, for one digit, the next power of ten. *)
Definition candidates (m : positive) (e : Z) (n0 k : Z) : list (Z * Z) :=
  let v := valueQ m e in
  let sl := Qfloor (v / pow10Q (n0 - k)) in
  let ok (c : Z * Z) :=
    let '(n, s) := c in
    (10 ^ (k - 1) <=? s) && (s <? 10 ^ k)
      && rounds_to m e (inject_Z s * pow10Q (n - k)) in
  filter ok ([(n0, sl); (n0, sl + 1)]
             ++ (if k =? 1 then [(n0 + 1, 1)] else [])).

(** Step 5 of Number::toString: integers [n], [k], [s] with [k >= 1],
    [10^(k-1) <= s < 10^k], [s * 10^(n-k)] rounding to the Number, and [k]
    as small as possible.  Seventeen digits always suffice. *)
Fixpoint shortest_from (fuel : nat) (m : positive) (e : Z) (n0 k : Z)
  : Z * Z * Z :=
  match closest k (valueQ m e) (candidates m e n0 k) with
  | Some (n, s) => (n, k, s)
  | None =>
      match fuel with
      | O => (n0, k, Qfloor (valueQ m e / pow10Q (n0 - k)))
      | S fuel' => shortest_from fuel' m e n0 (k + 1)
      end
  end.

Definition shortest (m : positive) (e : Z) : Z * Z * Z :=
  shortest_from 16 m e (decimal_exponent m e) 1.

Definition digits (z : Z) : string :=
  NilZero.string_of_uint (N.to_uint (Z.to_N z)).

Fixpoint zeros (n : nat) : string :=
  match n with
  | O => EmptyString
  | S n' => String "0"%char (zeros n')
  end.

(** Steps 6 to 10 of Number::toString, for a positive finite Number. *)
Definition render (n k s : Z) : string :=
  let ds := digits s in
  if (-5 <=? n) && (n <=? 21) then
    if k <=? n then (ds ++ zeros (Z.to_nat (n - k)))%string
    else if 0 <? n then
      (substring 0 (Z.to_nat n) ds ++ "."
         ++ substring (Z.to_nat n) (Z.to_nat (k - n)) ds)%string
    else ("0." ++ zeros (Z.to_nat (- n)) ++ ds)%string
  else
    let x := n - 1 in
    let c := if x <? 0 then "-"%string else "+"%string in
    let mant :=
      if k =? 1 then ds
      else (substring 0 1 ds ++ "."
              ++ substring 1 (Z.to_nat (k - 1)) ds)%string in
    (mant ++ "e" ++ c ++ digits (Z.abs x))%string.

(** [String(x)] for a Number [x], as string concatenation applies it. *)
Definition toString (x : number) : string :=
  match x with
  | S754_nan => "NaN"%string
  | S754_zero _ => "0"%string
  | S754_infinity s => if s then "-Infinity"%string else "Infinity"%string
  | S754_finite sg m e =>
      let '(n, k, s) := shortest m e in
      ((if sg then "-" else "") ++ render n k s)%string
  end.

End Num.

(** ** [formatTime] *)
Module Format.
Import Num.

Local Open Scope string_scope.

(** [function formatTime(seconds)].  The [+] of the [return] statement is
    string concatenation, which converts its Number operands with
    [toString]. *)
Definition formatTime (seconds : number) : string :=
  if isNaN seconds then "0:00"
  else
    let min := floor (div seconds (of_Z 60)) in
    let sec := floor (rem seconds (of_Z 60)) in
    toString min ++ ":"
      ++ (if ltb sec (of_Z 10) then "0" ++ toString sec else toString sec).




Definition digit (d : Z) : ascii := ascii_of_nat (48 + Z.to_nat d).

(** The two decimal digits of an integer below one hundred. *)
Definition two_digits (q : Z) : string :=
  String (digit (q / 10)) (String (digit (q mod 10)) EmptyString).



(** [formatTime] of the integer [n] is the decimal minutes [n / 60], a
    colon and the two digits of [n mod 60]. *)
Definition whole_seconds_agree (n : Z) : bool :=
  String.eqb (formatTime (of_Z n))
             (digits (n / 60) ++ ":" ++ two_digits (n mod 60)).

(** The same for each of the sixty seconds of minute [m]. *)
Definition minute_agrees (m : Z) : bool :=
  forallb (fun s => whole_seconds_agree (60 * m + s))
          (map Z.of_nat (seq 0 60)).

Definition is_digit (c : ascii) : bool :=
  ((48 <=? nat_of_ascii c) && (nat_of_ascii c <=? 57))%nat.

Fixpoint all_digits (s : string) : bool :=
  match s with
  | EmptyString => true
  | String c s' => is_digit c && all_digits s'
  end.

Fixpoint split_colon (s : string) : option (string * string) :=
  match s with
  | EmptyString => None
  | String c s' =>
      if Ascii.eqb c ":" then Some (EmptyString, s')
      else match split_colon s' with
           | Some (a, b) => Some (String c a, b)
           | None => None
           end
  end.

(** The shape [M:SS]: one or more digits, a colon, exactly two digits. *)
Definition is_M_SS (s : string) : bool :=
  match split_colon s with
  | Some (m, ss) =>
      (1 <=? String.length m)%nat && all_digits m
        && (String.length ss =? 2)%nat && all_digits ss
  | None => false
  end.

End Format.

(** ** The range input behind [#seek-bar]

    The seek bar is an [<input type="range">].  Such a control holds its
    value as a string and sanitizes it whenever [value] or [max] is
    assigned: a string that is no floating-point number is replaced by the
    default value, a value below the minimum by the minimum, a value above
    the maximum by the maximum.  The markup is not part of the script; the
    minimum is the default one, 0, and [step] is taken not to round the
    positions. *)
Module RangeInput.
Import Num.

(** What a Number assigned to a string property reads back as: every finite
    Number is itself again, except that the sign of zero is lost. *)
Definition via_string (x : number) : number :=
  match x with
  | S754_zero _ => S754_zero false
  | _ => x
  end.

Definition minimum : number := of_Z 0.

Definition default_maximum : number := of_Z 100.

(** The maximum in force under a [max] assigned from the Number [max]: that
    Number when it is finite; "NaN" and "Infinity" are no floating-point
    numbers and leave the default maximum. *)
Definition maximum (max : number) : number :=
  if isFinite max then via_string max else default_maximum.

(** The default value: half way between minimum and maximum, the minimum
    when the maximum is below it. *)
Definition default_value (max : number) : number :=
  if ltb (maximum max) minimum then minimum
  else div (maximum max) (of_Z 2).

(** Underflow and overflow: a value below the minimum becomes the minimum;
    a value above the maximum becomes the maximum, unless the maximum is
    below the minimum. *)
Definition clamp (max v : number) : number :=
  if ltb v minimum then minimum
  else if negb (ltb (maximum max) minimum) && ltb (maximum max) v
       then maximum max
       else v.

(** The value the control holds after the Number [x] was assigned to
    [value], or after [max] was assigned while it held [x]. *)
Definition sanitize (max x : number) : number :=
  clamp max (via_string (if isFinite x then x else default_value max)).


Lemma compare_refl (x : number) : SFcompare x x <> Some Lt.
Proof.
  destruct x as [s|s| |s m e]; cbn; try discriminate.
  - destruct s; discriminate.
  - rewrite Z.compare_refl, Pos.compare_cont_refl.
    destruct s; discriminate.
Qed.

Lemma ltb_irrefl (x : number) : ltb x x = false.
Proof.
  unfold ltb, SFltb. pose proof (compare_refl x) as H.
  destruct (SFcompare x x) as [[ | | ]|]; congruence.
Qed.

Lemma via_string_idempotent (x : number) :
  via_string (via_string x) = via_string x.
Proof. destruct x; reflexivity. Qed.

Lemma maximum_via_string (max : number) :
  via_string (maximum max) = maximum max /\ isFinite (maximum max) = true.
Proof.
  unfold maximum. destruct max as [s|s| |s m e]; split; reflexivity.
Qed.

Lemma clamp_minimum (max : number) : clamp max minimum = minimum.
Proof.
  unfold clamp. change (ltb minimum minimum) with false.
  destruct (ltb (maximum max) minimum); reflexivity.
Qed.

Lemma clamp_maximum (max : number) :
  ltb (maximum max) minimum = false ->
  clamp max (maximum max) = maximum max.
Proof. intros H. unfold clamp. now rewrite H, ltb_irrefl. Qed.

(** What underflow and overflow leave is left alone by them. *)
Lemma clamp_idempotent (max v : number) :
  clamp max (clamp max v) = clamp max v.
Proof.
  remember (clamp max v) as z eqn:Hz. unfold clamp in Hz.
  destruct (ltb v minimum) eqn:Hlow.
  - subst z. apply clamp_minimum.
  - destruct (negb (ltb (maximum max) minimum) && ltb (maximum max) v)
      eqn:Hhigh; subst z.
    + apply andb_true_iff in Hhigh. destruct Hhigh as [Hm _].
      apply negb_true_iff in Hm. now apply clamp_maximum.
    + unfold clamp. now rewrite Hlow, Hhigh.
Qed.

(** The pieces [clamp] can return. *)
Lemma clamp_cases (max v : number) :
  clamp max v = minimum \/ clamp max v = maximum max \/ clamp max v = v.
Proof.
  unfold clamp. destruct (ltb v minimum); [now left|].
  destruct (negb (ltb (maximum max) minimum) && ltb (maximum max) v); auto.
Qed.

(** A sanitized value is kept when it is assigned again, or when the same
    [max] is. *)
Lemma sanitize_idempotent (max x : number) :
  sanitize max (sanitize max x) = sanitize max x.
Proof.
  unfold sanitize at 2.
  set (y := via_string (if isFinite x then x else default_value max)).
  assert (Hy : via_string (if isFinite y then y else default_value max) = y).
  { unfold y. destruct (isFinite x) eqn:Hx.
    - replace (isFinite (via_string x)) with true
        by (destruct x; try discriminate; reflexivity).
      apply via_string_idempotent.
    - destruct (isFinite (via_string (default_value max)));
        [apply via_string_idempotent | reflexivity]. }
  destruct (maximum_via_string max) as [Hmv Hmf].
  change (sanitize max (clamp max y) = clamp max y).
  assert (Hz : via_string (if isFinite (clamp max y) then clamp max y
                           else default_value max) = clamp max y).
  { destruct (clamp_cases max y) as [H | [H | H]]; rewrite H.
    - reflexivity.
    - now rewrite Hmf.
    - exact Hy. }
  unfold sanitize. rewrite Hz. apply clamp_idempotent.
Qed.

Lemma number_eq_dec (x y : number) : {x = y} + {x <> y}.
Proof.
  decide equality; try apply Z.eq_dec; try apply Pos.eq_dec;
    apply Bool.bool_dec.
Qed.

(** Two proofs of an equation between Numbers are the same proof. *)
Lemma number_eq_proofs (x y : number) (p q : x = y) : p = q.
Proof. apply Eqdep_dec.UIP_dec, number_eq_dec. Qed.

End RangeInput.

(** ** The page objects and the handlers *)
Module Player.
Import Num Format.

Local Open Scope string_scope.

(** The calls the script makes on the [<audio>] element. *)
Inductive MediaCommand : Type := Play | Pause.

(** [audio]: the properties the script reads and writes, and the commands it
    has received so far, oldest first.  [readyState] is [0] (HAVE_NOTHING)
    until the metadata is loaded and at least [1] (HAVE_METADATA) after. *)
Record Audio : Type := {
  duration : number;
  currentTime : number;
  paused : bool;
  readyState : Z;
  commands : list MediaCommand
}.

(** [seekBar]: the two properties the script writes.  [max] reads back as
    assigned; [value] is a value the control has sanitized. *)
Record SeekBar : Type := {
  max : number;
  value : number;
  value_sanitized : RangeInput.sanitize max value = value
}.

Inductive EventName : Type := loadedmetadata | timeupdate.

(** The two arrow functions the script registers. *)
Inductive Listener : Type := call_setDuration | sync_time.

(** The five elements the script looks up, with the [innerHTML] of the
    three it writes text to, and the listeners registered on [audio]. *)
Record Page : Type := {
  audio : Audio;
  playBtn : string;
  seekBar : SeekBar;
  currentTimeDisplay : string;
  totalTimeDisplay : string;
  listeners : list (EventName * Listener)
}.

(** Property writes. *)
Definition set_audio (a : Audio) (p : Page) : Page :=
  {| audio := a; playBtn := playBtn p; seekBar := seekBar p;
     currentTimeDisplay := currentTimeDisplay p;
     totalTimeDisplay := totalTimeDisplay p; listeners := listeners p |}.

Definition set_playBtn (html : string) (p : Page) : Page :=
  {| audio := audio p; playBtn := html; seekBar := seekBar p;
     currentTimeDisplay := currentTimeDisplay p;
     totalTimeDisplay := totalTimeDisplay p; listeners := listeners p |}.

Definition set_seekBar (b : SeekBar) (p : Page) : Page :=
  {| audio := audio p; playBtn := playBtn p; seekBar := b;
     currentTimeDisplay := currentTimeDisplay p;
     totalTimeDisplay := totalTimeDisplay p; listeners := listeners p |}.

Definition set_currentTimeDisplay (html : string) (p : Page) : Page :=
  {| audio := audio p; playBtn := playBtn p; seekBar := seekBar p;
     currentTimeDisplay := html;
     totalTimeDisplay := totalTimeDisplay p; listeners := listeners p |}.

Definition set_totalTimeDisplay (html : string) (p : Page) : Page :=
  {| audio := audio p; playBtn := playBtn p; seekBar := seekBar p;
     currentTimeDisplay := currentTimeDisplay p;
     totalTimeDisplay := html; listeners := listeners p |}.

(** [seekBar.max = x]: the value held is sanitized against the new
    maximum. *)
Definition set_max (x : number) (b : SeekBar) : SeekBar :=
  {| max := x; value := RangeInput.sanitize x (value b);
     value_sanitized := RangeInput.sanitize_idempotent x (value b) |}.

(** [seekBar.value = x]: the control holds [x] sanitized. *)
Definition set_value (x : number) (b : SeekBar) : SeekBar :=
  {| max := max b; value := RangeInput.sanitize (max b) x;
     value_sanitized := RangeInput.sanitize_idempotent (max b) x |}.

Definition set_currentTime (x : number) (a : Audio) : Audio :=
  {| duration := duration a; currentTime := x; paused := paused a;
     readyState := readyState a; commands := commands a |}.

(** The element changes its own [paused] flag; no command of the script is
    involved. *)
Definition set_paused (b : bool) (a : Audio) : Audio :=
  {| duration := duration a; currentTime := currentTime a; paused := b;
     readyState := readyState a; commands := commands a |}.

(** [audio.play()] and [audio.pause()]: the element records the command and
    its [paused] flag takes the new value at once. *)
Definition play (a : Audio) : Audio :=
  {| duration := duration a; currentTime := currentTime a; paused := false;
     readyState := readyState a; commands := commands a ++ [Play] |}.

Definition pause (a : Audio) : Audio :=
  {| duration := duration a; currentTime := currentTime a; paused := true;
     readyState := readyState a; commands := commands a ++ [Pause] |}.

(** [audio.addEventListener(name, f)] *)
Definition addEventListener (name : EventName) (f : Listener) (p : Page)
  : Page :=
  {| audio := audio p; playBtn := playBtn p; seekBar := seekBar p;
     currentTimeDisplay := currentTimeDisplay p;
     totalTimeDisplay := totalTimeDisplay p;
     listeners := listeners p ++ [(name, f)] |}.

(** [function setDuration()] *)
Definition setDuration (p : Page) : Page :=
  let p := set_seekBar (set_max (duration (audio p)) (seekBar p)) p in
  set_totalTimeDisplay (formatTime (duration (audio p))) p.

(** [function togglePlay()] *)
Definition togglePlay (p : Page) : Page :=
  if paused (audio p) then
    let p := set_audio (play (audio p)) p in
    set_playBtn "||" p
  else
    let p := set_audio (pause (audio p)) p in
    set_playBtn "▶" p.

(** The listener of [timeupdate]. *)
Definition on_timeupdate (p : Page) : Page :=
  if negb (paused (audio p)) then
    let p := set_seekBar (set_value (currentTime (audio p)) (seekBar p)) p in
    set_currentTimeDisplay (formatTime (currentTime (audio p))) p
  else p.

(** [function handleSeek()] *)
Definition handleSeek (p : Page) : Page :=
  let p := set_audio (set_currentTime (value (seekBar p)) (audio p)) p in
  set_currentTimeDisplay (formatTime (currentTime (audio p))) p.

Definition run_listener (f : Listener) (p : Page) : Page :=
  match f with
  | call_setDuration => setDuration p
  | sync_time => on_timeupdate p
  end.

Definition EventName_eqb (a b : EventName) : bool :=
  match a, b with
  | loadedmetadata, loadedmetadata | timeupdate, timeupdate => true
  | _, _ => false
  end.

(** An event fired on [audio] runs the listeners registered for it, in
    registration order. *)
Definition dispatch (name : EventName) (p : Page) : Page :=
  fold_left
    (fun q l => if EventName_eqb (fst l) name then run_listener (snd l) q
                else q)
    (listeners p) p.

(** The top-level statements of the section, in source order: register the
    [loadedmetadata] listener, call [setDuration] at once when the metadata
    is already there, register the [timeupdate] listener. *)
Definition script (p : Page) : Page :=
  let p := addEventListener loadedmetadata call_setDuration p in
  let p := if (1 <=? readyState (audio p))%Z then setDuration p else p in
  addEventListener timeupdate sync_time p.

(** The browser side of the metadata becoming available: the duration is
    known, [readyState] reaches HAVE_METADATA and [loadedmetadata] fires. *)
Definition metadata_loaded (d : number) (p : Page) : Page :=
  let a := audio p in
  let a := {| duration := d; currentTime := currentTime a;
              paused := paused a; readyState := 1;
              commands := commands a |} in
  dispatch loadedmetadata (set_audio a p).

(** A page to run the handlers on: nothing loaded, paused at the start, the
    seek bar dragged to 100, no listener registered yet. *)
Definition fresh : Page :=
  {| audio := {| duration := NaN; currentTime := of_Z 0; paused := true;
                 readyState := 0; commands := [] |};
     playBtn := "▶";
     seekBar := {| max := of_Z 100; value := of_Z 100;
                   value_sanitized := eq_refl |};
     currentTimeDisplay := "0:00";
     totalTimeDisplay := "0:00";
     listeners := [] |}.

(** The same page while playing, the clock at 42.7 seconds. *)
Definition playing : Page :=
  set_audio {| duration := of_Z 185; currentTime := div (of_Z 427) (of_Z 10);
               paused := false; readyState := 4; commands := [Play] |}
            (set_playBtn "||" fresh).


(** The browser side of playback moving on: the clock reads [t] and
    [timeupdate] fires. *)
Definition time_advanced (t : number) (p : Page) : Page :=
  dispatch timeupdate (set_audio (set_currentTime t (audio p)) p).

(** The user drags the seek bar to [v] and the page calls [handleSeek]. *)
Definition drag (v : number) (p : Page) : Page :=
  handleSeek (set_seekBar (set_value v (seekBar p)) p).


(** The seek bar and the total-time label show the duration [d]. *)
Definition bounded_by (d : number) (p : Page) : Prop :=
  max (seekBar p) = d /\ totalTimeDisplay p = formatTime d.

(** The glyph that stands for a playback state. *)
Definition glyph (is_paused : bool) : string :=
  if is_paused then "▶" else "||".

End Player.

(** ** Class lists

    [element.classList] is an ordered set of tokens. *)
Module ClassList.

Definition classList : Type := list string.

(** [classList.contains(token)] *)
Definition contains (token : string) (l : classList) : bool :=
  existsb (String.eqb token) l.

(** [classList.add(token)]: appended unless it is there. *)
Definition add (token : string) (l : classList) : classList :=
  if contains token l then l else l ++ [token].

(** [classList.remove(token)] *)
Definition remove (token : string) (l : classList) : classList :=
  filter (fun t => negb (String.eqb token t)) l.

(** [classList.toggle(token)]: removed when it is there, added otherwise. *)
Definition toggle (token : string) (l : classList) : classList :=
  if contains token l then remove token l else l ++ [token].

End ClassList.

(** ** The active page indicator *)
Module Nav.
Import ClassList.

Local Open Scope string_scope.

(** [s.split('/')]: the substrings between the occurrences of the
    separator; never an empty array. *)
Fixpoint split (sep : ascii) (s : string) : list string :=
  match s with
  | EmptyString => [EmptyString]
  | String c s' =>
      if Ascii.eqb c sep then EmptyString :: split sep s'
      else match split sep s' with
           | seg :: rest => String c seg :: rest
           | [] => [String c EmptyString]
           end
  end.

(** [array.pop()], the value it returns: the last element, [undefined] on
    an empty array. *)
Fixpoint pop (l : list string) : option string :=
  match l with
  | [] => None
  | [x] => Some x
  | _ :: rest => pop rest
  end.

(** [window.location.pathname.split('/').pop() || 'index.html']: the empty
    string and [undefined] are falsy. *)
Definition currentPage (pathname : string) : string :=
  match pop (split "/" pathname) with
  | Some page => if String.eqb page "" then "index.html" else page
  | None => "index.html"
  end.

(** A [.nav-link] element: [getAttribute('href')] is [null] when the
    attribute is missing. *)
Record NavLink : Type := {
  href : option string;
  classes : classList
}.

(** [href === text], for the value [getAttribute] returned. *)
Definition href_is (h : option string) (text : string) : bool :=
  match h with
  | Some s => String.eqb s text
  | None => false
  end.

(** The condition of the [if] in [setActiveNavLink]. *)
Definition is_current (page : string) (h : option string) : bool :=
  href_is h page
  || (String.eqb page "" && href_is h "index.html")
  || (String.eqb page "index.html"
      && (href_is h "index.html" || href_is h "")).

(** [function setActiveNavLink()], on the page's pathname and its
    [.nav-link] elements in document order. *)
Definition setActiveNavLink (pathname : string) (navLinks : list NavLink)
  : list NavLink :=
  let page := currentPage pathname in
  map (fun link =>
         let cl := remove "active" (classes link) in
         let cl := if is_current page (href link) then add "active" cl
                   else cl in
         {| href := href link; classes := cl |})
      navLinks.

(** The links of a page with a home link whose [href] is empty. *)
Definition example_links : list NavLink :=
  [ {| href := Some ""; classes := ["nav-link"; "active"] |};
    {| href := Some "about.html"; classes := ["nav-link"] |};
    {| href := None; classes := ["nav-link"] |} ].

(** No character of the string is [c]. *)
Fixpoint free_of (c : ascii) (s : string) : bool :=
  match s with
  | EmptyString => true
  | String a s' => negb (Ascii.eqb a c) && free_of c s'
  end.

End Nav.

(** ** The mobile menu button *)
Module Hamburger.
Import ClassList.
Local Open Scope string_scope.

(** [hamburger] and [navContainer], by their class lists. *)
Record Menu : Type := {
  hamburger : classList;
  navContainer : classList
}.

(** The listener of [click] on [hamburger]. *)
Definition on_hamburger_click (m : Menu) : Menu :=
  {| hamburger := toggle "is-active" (hamburger m);
     navContainer := toggle "active" (navContainer m) |}.

(** The listener of [click] on a [.mobile-nav-link]. *)
Definition on_link_click (m : Menu) : Menu :=
  {| hamburger := remove "is-active" (hamburger m);
     navContainer := remove "active" (navContainer m) |}.

Inductive Click : Type := ClickHamburger | ClickLink.

Definition handle (m : Menu) (c : Click) : Menu :=
  match c with
  | ClickHamburger => on_hamburger_click m
  | ClickLink => on_link_click m
  end.

(** The clicks of a session, in order. *)
Definition run (clicks : list Click) (m : Menu) : Menu :=
  fold_left handle clicks m.

(** The button shows the cross. *)
Definition crossed (m : Menu) : bool := contains "is-active" (hamburger m).

(** The menu is shown. *)
Definition shown (m : Menu) : bool := contains "active" (navContainer m).

(** A menu whose markup shows the navigation before any click. *)
Definition unsynced : Menu :=
  {| hamburger := ["hamburger"]; navContainer := ["nav"; "active"] |}.

End Hamburger.

(** ** Timers

    [setTimeout] and [clearTimeout] on a queue of pending timers.  Handles
    are handed out in increasing order and never reused; a timer runs when
    the clock has reached its due time, the earliest due first and, among
    equals, the one set first. *)
Module Timers.
Section Queue.

Variable T : Type.

Record timer : Type := {
  handle : nat;
  due : Z;
  callback : T
}.

Record timers : Type := {
  clock : Z;
  fresh : nat;
  pending : list timer
}.

Definition no_timers : timers := {| clock := 0; fresh := 1; pending := [] |}.

(** [setTimeout(callback, delay)]: the handle and the new queue.  A negative
    delay counts as zero. *)
Definition setTimeout (cb : T) (delay : Z) (q : timers) : nat * timers :=
  (fresh q,
   {| clock := clock q;
      fresh := S (fresh q);
      pending := pending q
                 ++ [{| handle := fresh q; due := clock q + Z.max 0 delay;
                        callback := cb |}] |}).

(** [clearTimeout(h)]: nothing happens for [undefined] and for a handle
    that is not pending. *)
Definition clearTimeout (h : option nat) (q : timers) : timers :=
  match h with
  | None => q
  | Some n =>
      {| clock := clock q; fresh := fresh q;
         pending := filter (fun t => negb (Nat.eqb (handle t) n))
                           (pending q) |}
  end.

(** The pending timer that runs first. *)
Fixpoint first_due (l : list timer) : option timer :=
  match l with
  | [] => None
  | t :: l' =>
      match first_due l' with
      | Some u => if due u <? due t then Some u else Some t
      | None => Some t
      end
  end.

(** The next timer due by [limit], taken off the queue, with the clock set
    to the time it runs at. *)
Definition take (limit : Z) (q : timers) : option (timer * timers) :=
  match first_due (pending q) with
  | Some t =>
      if due t <=? limit
      then Some (t, {| clock := Z.max (clock q) (due t);
                       fresh := fresh q;
                       pending := filter
                                    (fun u => negb (Nat.eqb (handle u)
                                                            (handle t)))
                                    (pending q) |})
      else None
  | None => None
  end.

(** The clock moved on to [limit]. *)
Definition at_time (limit : Z) (q : timers) : timers :=
  {| clock := Z.max (clock q) limit; fresh := fresh q;
     pending := pending q |}.

Definition is_pending (h : nat) (q : timers) : bool :=
  existsb (fun t => Nat.eqb (handle t) h) (pending q).

End Queue.

Arguments handle {T}.
Arguments due {T}.
Arguments callback {T}.
Arguments clock {T}.
Arguments fresh {T}.
Arguments pending {T}.
Arguments no_timers {T}.
Arguments setTimeout {T}.
Arguments clearTimeout {T}.
Arguments first_due {T}.
Arguments take {T}.
Arguments at_time {T}.
Arguments is_pending {T}.

End Timers.

(** ** [throttle] and [debounce] *)
Module Debounce.
Import Timers.
Section Closure.

(** The arguments of a call, the state [func] acts on, [func] and [wait]. *)
Variable A : Type.
Variable St : Type.
Variable func : A -> St -> St.
Variable wait : Z.

(** What one call of [debounce(func, wait)] creates: the variable [timeout]
    of the closure, next to the timer queue and the state of [func].  The
    callback of a pending timer is a [later], which holds the [args] of
    the call that set it. *)
Record closure : Type := {
  timeout : option nat;
  queue : timers A;
  state : St
}.

Definition created (s : St) : closure :=
  {| timeout := None; queue := no_timers; state := s |}.

(** [later]: [clearTimeout(timeout); func(...args);] *)
Definition later (args : A) (c : closure) : closure :=
  {| timeout := timeout c;
     queue := clearTimeout (timeout c) (queue c);
     state := func args (state c) |}.

(** [executedFunction(...args)]:
    [clearTimeout(timeout); timeout = setTimeout(later, wait);] *)
Definition executedFunction (args : A) (c : closure) : closure :=
  let q := clearTimeout (timeout c) (queue c) in
  let '(h, q) := setTimeout args wait q in
  {| timeout := Some h; queue := q; state := state c |}.

(** The timers due by [limit] run, in order. *)
Fixpoint fire (fuel : nat) (limit : Z) (c : closure) : closure :=
  match fuel with
  | O => c
  | S fuel' =>
      match take limit (queue c) with
      | Some (t, q) =>
          fire fuel' limit
               (later (callback t)
                      {| timeout := timeout c; queue := q;
                         state := state c |})
      | None => c
      end
  end.

(** [dt] milliseconds pass. *)
Definition elapse (dt : Z) (c : closure) : closure :=
  let limit := clock (queue c) + Z.max 0 dt in
  let c := fire (List.length (pending (queue c))) limit c in
  {| timeout := timeout c; queue := at_time limit (queue c);
     state := state c |}.

(** A call followed by [dt] milliseconds without a call. *)
Definition call_then_wait (c : closure) (step : A * Z) : closure :=
  elapse (snd step) (executedFunction (fst step) c).

Definition burst (steps : list (A * Z)) (c : closure) : closure :=
  fold_left call_then_wait steps c.

(** At most the timer that [timeout] names is pending. *)
Definition single (c : closure) : Prop :=
  match pending (queue c) with
  | [] => True
  | [t] => timeout c = Some (handle t) /\ (handle t < fresh (queue c))%nat
  | _ => False
  end.

End Closure.

Arguments timeout {A St}.
Arguments queue {A St}.
Arguments state {A St}.
Arguments created {A St}.
Arguments later {A St}.
Arguments executedFunction {A St}.
Arguments fire {A St}.
Arguments elapse {A St}.
Arguments call_then_wait {A St}.
Arguments burst {A St}.
Arguments single {A St}.

(** [function throttle(func, wait)] and [function debounce(func, wait)]
    have the same body; the returned [executedFunction] is the one above. *)
Definition throttle {A St : Type} (wait : Z)
  : A -> closure A St -> closure A St :=
  executedFunction wait.

Definition debounce {A St : Type} (wait : Z)
  : A -> closure A St -> closure A St :=
  executedFunction wait.

End Debounce.

(** ** Dropdown menus *)
Module Dropdowns.
Import Timers.
Local Open Scope string_scope.

(** The three inline style properties the script writes on a
    [.dropdown-menu]. *)
Record Style : Type := {
  opacity : string;
  visibility : string;
  transform : string
}.

Definition shown_style : Style :=
  {| opacity := "1"; visibility := "visible"; transform := "translateY(0)" |}.

Definition hidden_style : Style :=
  {| opacity := "0"; visibility := "hidden";
     transform := "translateY(-10px)" |}.

(** No inline style: the style sheet decides. *)
Definition no_style : Style :=
  {| opacity := ""; visibility := ""; transform := "" |}.

(** A [.nav-item]: its first [.dropdown-menu], as an index into the
    document's dropdown menus ([null] when it has none), and the variable
    [hoverTimeout] of its listeners. *)
Record NavItem : Type := {
  dropdown : option nat;
  hoverTimeout : option nat
}.

(** What a pending timer runs: the hiding of a menu, set by [mouseleave],
    or the [later] of the debounced [resize] listener. *)
Inductive Callback : Type :=
| Hide (menu : nat)
| ResizeLater.

Record Nav : Type := {
  innerWidth : Z;
  menus : list Style;
  items : list NavItem;
  resizeTimeout : option nat;
  queue : timers Callback
}.

Definition with_menus (ms : list Style) (w : Nav) : Nav :=
  {| innerWidth := innerWidth w; menus := ms; items := items w;
     resizeTimeout := resizeTimeout w; queue := queue w |}.

Definition with_items (its : list NavItem) (w : Nav) : Nav :=
  {| innerWidth := innerWidth w; menus := menus w; items := its;
     resizeTimeout := resizeTimeout w; queue := queue w |}.

Definition with_queue (q : timers Callback) (w : Nav) : Nav :=
  {| innerWidth := innerWidth w; menus := menus w; items := items w;
     resizeTimeout := resizeTimeout w; queue := q |}.

(** The element at [i] replaced; nothing changes out of range. *)
Fixpoint update {X : Type} (i : nat) (x : X) (l : list X) : list X :=
  match l, i with
  | [], _ => []
  | _ :: l', O => x :: l'
  | y :: l', S i' => y :: update i' x l'
  end.

Definition set_style (d : nat) (s : Style) (w : Nav) : Nav :=
  with_menus (update d s (menus w)) w.

(** The listener of [mouseenter] on item [i]; an item without dropdown has
    no listener. *)
Definition on_mouseenter (i : nat) (w : Nav) : Nav :=
  match nth_error (items w) i with
  | Some {| dropdown := Some d; hoverTimeout := h |} =>
      let w := with_queue (clearTimeout h (queue w)) w in
      set_style d shown_style w
  | _ => w
  end.

(** The listener of [mouseleave] on item [i]. *)
Definition on_mouseleave (i : nat) (w : Nav) : Nav :=
  match nth_error (items w) i with
  | Some {| dropdown := Some d; hoverTimeout := _ |} =>
      let '(h, q) := setTimeout (Hide d) 200 (queue w) in
      with_items
        (update i {| dropdown := Some d; hoverTimeout := Some h |} (items w))
        (with_queue q w)
  | _ => w
  end.

(** The listener of [click] on the [.nav-link] of item [i]: the new state
    and whether [preventDefault] was called. *)
Definition on_navlink_click (i : nat) (w : Nav) : Nav * bool :=
  match nth_error (items w) i with
  | Some {| dropdown := Some d; hoverTimeout := _ |} =>
      if (innerWidth w <=? 768)%Z then
        let isVisible :=
          match nth_error (menus w) d with
          | Some s => String.eqb (visibility s) "visible"
          | None => false
          end in
        (set_style d (if isVisible then hidden_style else shown_style) w,
         true)
      else (w, false)
  | _ => (w, false)
  end.

(** The listener of [click] on [document]: [inside] says whether the target
    has a [.nav-item] ancestor. *)
Definition on_document_click (inside : bool) (w : Nav) : Nav :=
  if negb inside then with_menus (map (fun _ => hidden_style) (menus w)) w
  else w.

(** The function the [resize] listener debounces. *)
Definition reset_dropdowns (w : Nav) : Nav :=
  with_menus
    (map (fun s => if (768 <? innerWidth w)%Z then no_style else s) (menus w))
    w.

(** The debounced [resize] listener, called when the window has taken the
    width [width]: [executedFunction] of [debounce(reset, 250)]. *)
Definition on_resize (width : Z) (w : Nav) : Nav :=
  let q := clearTimeout (resizeTimeout w) (queue w) in
  let '(h, q) := setTimeout ResizeLater 250 q in
  {| innerWidth := width; menus := menus w; items := items w;
     resizeTimeout := Some h; queue := q |}.

Definition run_callback (cb : Callback) (w : Nav) : Nav :=
  match cb with
  | Hide d => set_style d hidden_style w
  | ResizeLater =>
      reset_dropdowns
        (with_queue (clearTimeout (resizeTimeout w) (queue w)) w)
  end.

(** The timers due by [limit] run, in order. *)
Fixpoint fire (fuel : nat) (limit : Z) (w : Nav) : Nav :=
  match fuel with
  | O => w
  | S fuel' =>
      match take limit (queue w) with
      | Some (t, q) =>
          fire fuel' limit (run_callback (callback t) (with_queue q w))
      | None => w
      end
  end.

(** [dt] milliseconds pass. *)
Definition elapse (dt : Z) (w : Nav) : Nav :=
  let limit := clock (queue w) + Z.max 0 dt in
  let w := fire (List.length (pending (queue w))) limit w in
  with_queue (at_time limit (queue w)) w.

Inductive Event : Type :=
| MouseEnter (item : nat)
| MouseLeave (item : nat)
| ClickNavLink (item : nat)
| ClickElsewhere (inside : bool)
| Resize (width : Z)
| Elapse (dt : Z).

(** A click on a nav link reaches the link's listener and then, bubbling,
    the document's; the link is inside its item. *)
Definition step (w : Nav) (e : Event) : Nav :=
  match e with
  | MouseEnter i => on_mouseenter i w
  | MouseLeave i => on_mouseleave i w
  | ClickNavLink i => on_document_click true (fst (on_navlink_click i w))
  | ClickElsewhere inside => on_document_click inside w
  | Resize width => on_resize width w
  | Elapse dt => elapse dt w
  end.

Definition run (events : list Event) (w : Nav) : Nav :=
  fold_left step events w.

(** One of the three styles the script ever leaves on a menu. *)
Definition consistent (s : Style) : Prop :=
  s = no_style \/ s = shown_style \/ s = hidden_style.

Definition hide_pending (d : nat) (w : Nav) : bool :=
  existsb (fun t => match callback t with
                    | Hide d' => Nat.eqb d' d
                    | ResizeLater => false
                    end)
          (pending (queue w)).

Definition resize_pending (w : Nav) : bool :=
  existsb (fun t => match callback t with
                    | Hide _ => false
                    | ResizeLater => true
                    end)
          (pending (queue w)).

(** Only resize timers are pending. *)
Definition no_hide_pending (w : Nav) : bool :=
  forallb (fun t => match callback t with
                    | Hide _ => false
                    | ResizeLater => true
                    end)
          (pending (queue w)).

(** Every pending handle was handed out by this queue. *)
Definition handles_known (w : Nav) : bool :=
  forallb (fun t => Nat.ltb (handle t) (fresh (queue w)))
          (pending (queue w)).

(** A page with two nav items, the second without dropdown, 1024 pixels
    wide, nothing pending. *)
Definition desktop : Nav :=
  {| innerWidth := 1024;
     menus := [no_style];
     items := [ {| dropdown := Some 0%nat; hoverTimeout := None |};
                {| dropdown := None; hoverTimeout := None |} ];
     resizeTimeout := None;
     queue := no_timers |}.

End Dropdowns.

(** ** The top level of the script

    The statements outside any function, run once when the file is loaded.
    A property access on [null] throws a [TypeError], which ends the
    script. *)
Module TopLevel.
Import Num Format.

(** What the page holds of the elements the top level looks up by id;
    [None] and [false] stand for [null]. *)
Record Elements : Type := {
  hamburger : bool;
  navContainer : bool;
  mobileLinks : nat;
  audio : option Player.Audio;
  seekBar : option Player.SeekBar;
  totalTimeDisplay : option string
}.

Inductive Target : Type :=
| Document
| Window
| HamburgerButton
| MobileLink (k : nat)
| AudioElement.

(** The elements and the listeners registered so far, oldest first. *)
Record State : Type := {
  elements : Elements;
  listeners : list (Target * string)
}.

Inductive result (X : Type) : Type :=
| Return (x : X)
| Throw (error : string).

Arguments Return {X}.
Arguments Throw {X}.

(** A statement: it runs on a state and completes normally or throws. *)
Definition M (X : Type) : Type := State -> result X * State.

Definition ret {X : Type} (x : X) : M X := fun s => (Return x, s).

Definition throw {X : Type} (error : string) : M X :=
  fun s => (Throw error, s).

Definition bind {X Y : Type} (m : M X) (f : X -> M Y) : M Y :=
  fun s =>
    match m s with
    | (Return x, s') => f x s'
    | (Throw e, s') => (Throw e, s')
    end.

Notation "x <- m ;; k" := (bind m (fun x => k))
  (at level 61, m at next level, right associativity).
Notation "m ;; k" := (bind m (fun _ => k))
  (at level 61, right associativity).

Definition TypeError : string := "TypeError".

(** [target.addEventListener(type, listener)] on a target that exists. *)
Definition addEventListener (t : Target) (type : string) : M unit :=
  fun s =>
    (Return tt,
     {| elements := elements s;
        listeners := listeners s ++ [(t, type)] |}).

Definition get {X : Type} (field : Elements -> X) : M X :=
  fun s => (Return (field (elements s)), s).

(** The value of a variable that must not be [null] where it is used. *)
Definition deref {X : Type} (field : Elements -> option X) : M X :=
  fun s =>
    match field (elements s) with
    | Some x => (Return x, s)
    | None => (Throw TypeError, s)
    end.

Definition set_seekBar (b : Player.SeekBar) : M unit :=
  fun s =>
    let e := elements s in
    (Return tt,
     {| elements := {| hamburger := hamburger e;
                       navContainer := navContainer e;
                       mobileLinks := mobileLinks e; audio := audio e;
                       seekBar := Some b;
                       totalTimeDisplay := totalTimeDisplay e |};
        listeners := listeners s |}).

Definition set_totalTimeDisplay (html : string) : M unit :=
  fun s =>
    let e := elements s in
    (Return tt,
     {| elements := {| hamburger := hamburger e;
                       navContainer := navContainer e;
                       mobileLinks := mobileLinks e; audio := audio e;
                       seekBar := seekBar e;
                       totalTimeDisplay := Some html |};
        listeners := listeners s |}).

(** [function setDuration()], on elements that may be missing: in each
    assignment the right-hand side is evaluated, then the property is
    written. *)
Definition setDuration : M unit :=
  a <- deref audio ;;
  b <- deref seekBar ;;
  set_seekBar (Player.set_max (Player.duration a) b) ;;
  a <- deref audio ;;
  _ <- deref totalTimeDisplay ;;
  set_totalTimeDisplay (formatTime (Player.duration a)).

(** [mobileLinks.forEach(link => link.addEventListener('click', ...))] *)
Fixpoint wire_links (k n : nat) : M unit :=
  match n with
  | O => ret tt
  | S n' => addEventListener (MobileLink k) "click" ;; wire_links (S k) n'
  end.

(** The top-level statements, in source order. *)
Definition main : M unit :=
  addEventListener Document "DOMContentLoaded" ;;
  addEventListener Window "resize" ;;
  addEventListener Window "scroll" ;;
  h <- get hamburger ;;
  (if h then addEventListener HamburgerButton "click" else throw TypeError) ;;
  n <- get mobileLinks ;;
  wire_links 0 n ;;
  a <- deref audio ;;
  addEventListener AudioElement "loadedmetadata" ;;
  (if 1 <=? Player.readyState a then setDuration else ret tt) ;;
  addEventListener AudioElement "timeupdate".

Definition run_script (e : Elements) : result unit * State :=
  main {| elements := e; listeners := [] |}.

Definition completed (r : result unit * State) : bool :=
  match fst r with
  | Return _ => true
  | Throw _ => false
  end.

(** The audio player can be wired: the button and the audio element exist
    and, when the metadata is there already, so do the seek bar and the
    total-time label. *)
Definition wirable (e : Elements) : bool :=
  hamburger e
  && match audio e with
     | Some a =>
         if 1 <=? Player.readyState a
         then match seekBar e, totalTimeDisplay e with
              | Some _, Some _ => true
              | _, _ => false
              end
         else true
     | None => false
     end.

(** A page with the audio player but without the mobile menu button. *)
Definition no_hamburger : Elements :=
  {| hamburger := false; navContainer := true; mobileLinks := 3;
     audio := Some (Player.audio Player.playing);
     seekBar := Some (Player.seekBar Player.playing);
     totalTimeDisplay := Some "0:00"%string |}.

End TopLevel.

(** ** Scroll reveal *)
Module ScrollReveal.
Import ClassList.

(** An [IntersectionObserverEntry]: its target, as an index into the
    observed elements, and [isIntersecting]. *)
Record Entry : Type := {
  target : nat;
  isIntersecting : bool
}.

(** The body of [entries.forEach], on the class lists of the observed
    elements. *)
Definition reveal (observed : list classList) (entry : Entry)
  : list classList :=
  if isIntersecting entry then
    match nth_error observed (target entry) with
    | Some cl => Dropdowns.update (target entry) (add "visible" cl) observed
    | None => observed
    end
  else observed.

(** The callback given to [new IntersectionObserver]. *)
Definition callback (entries : list Entry) (observed : list classList)
  : list classList :=
  fold_left reveal entries observed.

(** Some entry reports the element [k] as intersecting. *)
Definition seen (k : nat) (entries : list Entry) : bool :=
  existsb (fun e => isIntersecting e && Nat.eqb (target e) k) entries.

End ScrollReveal.

(** ** A session with the audio player *)
Module Session.
Import Num Player.

(** What can happen to the player: the user clicks the play button or drags
    the seek bar, the clock moves on, the metadata arrives, or the audio
    element changes its [paused] flag by itself: it pauses itself when
    playback reaches the end of the track or when it refuses to play, and
    the browser's own media controls pause and resume it. *)
Inductive Action : Type :=
| Toggle
| Drag (v : number)
| Advance (t : number)
| Loaded (d : number)
| Element (is_paused : bool).

Definition act (p : Page) (a : Action) : Page :=
  match a with
  | Toggle => togglePlay p
  | Drag v => drag v p
  | Advance t => time_advanced t p
  | Loaded d => metadata_loaded d p
  | Element b => set_audio (set_paused b (audio p)) p
  end.

Definition run (actions : list Action) (p : Page) : Page :=
  fold_left act actions p.

(** [n] commands that alternate, the first one [play()] when [is_paused]. *)
Fixpoint alternating (is_paused : bool) (n : nat) : list MediaCommand :=
  match n with
  | O => []
  | S n' => (if is_paused then Play else Pause)
              :: alternating (negb is_paused) n'
  end.

Definition toggles (actions : list Action) : nat :=
  List.length (filter (fun a => match a with Toggle => true | _ => false end)
                      actions).

(** Only the script changes [paused] during these actions. *)
Definition script_only (actions : list Action) : bool :=
  forallb (fun a => match a with Element _ => false | _ => true end) actions.

(** The user clicks the play button, the track of 185 seconds plays to its
    end and the element pauses itself, the user clicks again. *)
Definition played_to_end : list Action :=
  [Toggle; Advance (of_Z 185); Element true; Toggle].

End Session.

(** ** Facts about the Number operations *)
Module NumFacts.
Import Num.


Example rem_examples :
  rem (of_Z 125) (of_Z 60) = of_Z 5
  /\ rem (of_Z (-1)) (of_Z 60) = of_Z (-1)
  /\ rem (of_Z (-60)) (of_Z 60) = S754_zero true
  /\ rem Infinity (of_Z 60) = NaN
  /\ rem (of_Z 7) Infinity = of_Z 7
  /\ rem (of_Z 7) (of_Z 0) = NaN
  /\ toString (rem (div (of_Z 3427) (of_Z 10)) (of_Z 60))
     = "42.69999999999999"%string.
Proof. vm_compute. repeat split. Qed.

Example floor_examples :
  floor (div (of_Z 427) (of_Z 10)) = of_Z 42
  /\ floor (div (of_Z 1) (of_Z 2)) = S754_zero false
  /\ floor (div (of_Z (-1)) (of_Z 60)) = of_Z (-1)
  /\ floor (S754_zero true) = S754_zero true
  /\ floor NegInfinity = NegInfinity
  /\ floor NaN = NaN.
Proof. vm_compute. repeat split. Qed.

Example toString_examples :
  toString (of_Z 0) = "0"%string
  /\ toString (S754_zero true) = "0"%string
  /\ toString (of_Z (-1)) = "-1"%string
  /\ toString (div (of_Z 427) (of_Z 10)) = "42.7"%string
  /\ toString (div (of_Z 1) (of_Z 3)) = "0.3333333333333333"%string
  /\ toString (of_Z (2 ^ 53)) = "9007199254740992"%string
  /\ toString (of_Z (10 ^ 20)) = "100000000000000000000"%string
  /\ toString (of_Z (10 ^ 21)) = "1e+21"%string
  /\ toString (of_Z (2 ^ 70)) = "1.1805916207174113e+21"%string
  /\ toString (div (of_Z 1) (of_Z 1000000)) = "0.000001"%string
  /\ toString (div (of_Z 1) (of_Z 10000000)) = "1e-7"%string.
Proof. vm_compute. repeat split. Qed.










End NumFacts.

(** ** Facts about [formatTime] *)
Module FormatFacts.
Import Num NumFacts Format.



Lemma in_Z_range (q : Z) (n : nat) :
  0 <= q < Z.of_nat n -> In q (map Z.of_nat (seq 0 n)).
Proof.
  intros Hq. apply in_map_iff. exists (Z.to_nat q). split; [lia|].
  apply in_seq. lia.
Qed.



Lemma minute_agrees_below_60 :
  forallb minute_agrees (map Z.of_nat (seq 0 60)) = true.
Proof. vm_compute. reflexivity. Qed.

(** On whole seconds below one hour the minutes field is the decimal
    integer quotient by 60. *)
Lemma formatTime_whole_seconds (n : Z) :
  0 <= n < 3600 ->
  formatTime (of_Z n)
  = (digits (n / 60) ++ ":" ++ two_digits (n mod 60))%string.
Proof.
  intros Hn.
  pose proof minute_agrees_below_60 as Hall.
  rewrite forallb_forall in Hall.
  assert (Hm : 0 <= n / 60 < 60)
    by (split; [apply Z.div_pos | apply Z.div_lt_upper_bound]; lia).
  specialize (Hall (n / 60) (in_Z_range (n / 60) 60 Hm)).
  unfold minute_agrees in Hall. rewrite forallb_forall in Hall.
  assert (Hs : 0 <= n mod 60 < 60) by (apply Z.mod_pos_bound; lia).
  specialize (Hall (n mod 60) (in_Z_range (n mod 60) 60 Hs)).
  rewrite <- Z.div_mod in Hall by lia.
  apply String.eqb_eq. exact Hall.
Qed.




(** C5. [formatTime(NaN)] is exactly "0:00": the function returns a string
    there, and the string is not "NaN:NaN". *)
Theorem formatTime_NaN :
  formatTime NaN = "0:00"%string /\ formatTime NaN <> "NaN:NaN"%string.
Proof. split; [reflexivity | discriminate]. Qed.

(** C6, as the claim states it, fails: positive infinity is not finite and
    does not format as "0:00". *)
Lemma formatTime_Infinity_not_fallback :
  isFinite Infinity = false
  /\ formatTime Infinity = "Infinity:NaN"%string
  /\ formatTime Infinity <> "0:00"%string.
Proof.
  split; [reflexivity|]. split; [reflexivity|].
  intros H. vm_compute in H. discriminate H.
Qed.

(** C6, amended. Of the values that are not finite only NaN takes the
    fallback "0:00"; an infinity passes the [isNaN] guard and formats as its
    own name, a colon and "NaN".  No case raises an error: [formatTime]
    returns a string on every Number. *)
Theorem formatTime_not_finite (s : number) :
  isFinite s = false ->
  formatTime s
  = if isNaN s then "0:00"%string else (toString s ++ ":NaN")%string.
Proof.
  destruct s as [sg|sg| |sg m e]; try discriminate; intros _.
  - destruct sg; reflexivity.
  - reflexivity.
Qed.

(** The three values that are not finite. *)
Lemma formatTime_not_finite_witness :
  formatTime NaN = "0:00"%string
  /\ formatTime Infinity = "Infinity:NaN"%string
  /\ formatTime NegInfinity = "-Infinity:NaN"%string.
Proof.
  split; [|split].
  - exact (formatTime_not_finite NaN eq_refl).
  - exact (formatTime_not_finite Infinity eq_refl).
  - exact (formatTime_not_finite NegInfinity eq_refl).
Defined.

(** C10. [formatTime] does nothing about the sign of a negative finite
    input: [formatTime(-1)] is "-1:0-1", which is not of the shape [M:SS],
    so some negative finite Number has an output outside that shape. *)
Theorem formatTime_negative :
  formatTime (of_Z (-1)) = "-1:0-1"%string
  /\ is_M_SS "-1:0-1" = false
  /\ exists s : number,
       valid s = true /\ isFinite s = true /\ ltb s (of_Z 0) = true
       /\ is_M_SS (formatTime s) = false.
Proof.
  split; [vm_compute; reflexivity|].
  split; [reflexivity|].
  exists (of_Z (-1)). repeat split; vm_compute; reflexivity.
Qed.

End FormatFacts.

(** ** Facts about the range input *)
Module RangeInputFacts.
Import Num RangeInput.





End RangeInputFacts.

(** ** Facts about the handlers *)
Module PlayerFacts.
Import Num Format Player.

Local Open Scope string_scope.

(** A seek bar is its [max] and the value it holds. *)
Lemma SeekBar_eq (b1 b2 : SeekBar) :
  max b1 = max b2 -> value b1 = value b2 -> b1 = b2.
Proof.
  destruct b1 as [m1 v1 H1], b2 as [m2 v2 H2]. cbn. intros -> ->.
  f_equal. apply RangeInput.number_eq_proofs.
Qed.

Lemma set_value_held (b : SeekBar) : set_value (value b) b = b.
Proof. apply SeekBar_eq; [reflexivity | apply value_sanitized]. Qed.


Lemma set_max_idempotent (x : number) (b : SeekBar) :
  set_max x (set_max x b) = set_max x b.
Proof.
  apply SeekBar_eq; [reflexivity | apply RangeInput.sanitize_idempotent].
Qed.




(** C2. [handleSeek] run with [seekBar.value = t] leaves
    [audio.currentTime = t] and the elapsed-time label equal to
    [formatTime t]: both hold of the page [handleSeek] returns, whether the
    audio is paused or not and before any [timeupdate] is handled. *)
Theorem handleSeek_sets_time (t : number) (p : Page) :
  value (seekBar p) = t ->
  currentTime (audio (handleSeek p)) = t
  /\ currentTimeDisplay (handleSeek p) = formatTime t.
Proof.
  intros Hv. unfold handleSeek. cbn. now rewrite Hv.
Qed.

Lemma handleSeek_sets_time_witness :
  currentTime (audio (handleSeek fresh)) = of_Z 100
  /\ currentTimeDisplay (handleSeek fresh) = "1:40".
Proof.
  exact (handleSeek_sets_time (of_Z 100) fresh eq_refl).
Defined.

(** C3. On a paused audio [togglePlay] issues [play()] and sets the button
    to the playing glyph; otherwise it issues [pause()] and sets it to "▶".
    Either way the label the call leaves is the glyph of the state the
    command leaves. *)
Theorem togglePlay_correct (p : Page) :
  (paused (audio p) = true ->
     commands (audio (togglePlay p)) = (commands (audio p) ++ [Play])%list
     /\ playBtn (togglePlay p) = "||")
  /\ (paused (audio p) = false ->
        commands (audio (togglePlay p)) = (commands (audio p) ++ [Pause])%list
        /\ playBtn (togglePlay p) = "▶")
  /\ playBtn (togglePlay p) = glyph (paused (audio (togglePlay p))).
Proof.
  unfold togglePlay.
  destruct (paused (audio p)); cbn; repeat split; congruence.
Qed.

Lemma togglePlay_correct_witness :
  (commands (audio (togglePlay fresh)) = [Play]
   /\ playBtn (togglePlay fresh) = "||")
  /\ (commands (audio (togglePlay playing)) = [Play; Pause]
      /\ playBtn (togglePlay playing) = "▶").
Proof.
  split.
  - exact (proj1 (togglePlay_correct fresh) eq_refl).
  - exact (proj1 (proj2 (togglePlay_correct playing)) eq_refl).
Defined.

(** C7. While the audio is paused the [timeupdate] listener changes nothing:
    the page it returns is the page it was given, so the seek bar's value
    and the elapsed-time label are the ones from before. *)
Theorem timeupdate_paused_noop (p : Page) :
  paused (audio p) = true ->
  on_timeupdate p = p
  /\ value (seekBar (on_timeupdate p)) = value (seekBar p)
  /\ currentTimeDisplay (on_timeupdate p) = currentTimeDisplay p.
Proof.
  intros Hp. unfold on_timeupdate. rewrite Hp. cbn. repeat split.
Qed.

Lemma timeupdate_paused_noop_witness :
  on_timeupdate fresh = fresh
  /\ value (seekBar (on_timeupdate fresh)) = of_Z 100
  /\ currentTimeDisplay (on_timeupdate fresh) = "0:00".
Proof.
  exact (timeupdate_paused_noop fresh eq_refl).
Defined.

(** No listener writes to [audio]. *)
Lemma run_listener_audio (f : Listener) (p : Page) :
  audio (run_listener f p) = audio p.
Proof.
  destruct f; cbn; [reflexivity|].
  unfold on_timeupdate. destruct (negb (paused (audio p))); reflexivity.
Qed.

Lemma fold_listeners_audio (name : EventName)
      (ls : list (EventName * Listener)) (p : Page) :
  audio (fold_left
           (fun q l => if EventName_eqb (fst l) name
                       then run_listener (snd l) q else q) ls p)
  = audio p.
Proof.
  revert p. induction ls as [|l ls IH]; intros p; cbn [fold_left].
  - reflexivity.
  - rewrite IH. destruct (EventName_eqb (fst l) name);
      [apply run_listener_audio | reflexivity].
Qed.

Lemma dispatch_audio (name : EventName) (p : Page) :
  audio (dispatch name p) = audio p.
Proof. apply fold_listeners_audio. Qed.

Lemma setDuration_bounded (p : Page) :
  bounded_by (duration (audio p)) (setDuration p).
Proof. split; reflexivity. Qed.

(** Once [script] has run, [loadedmetadata] ends in a call of
    [setDuration], whatever was registered before. *)
Lemma dispatch_after_script (p q : Page) :
  listeners q
  = (listeners p ++ [(loadedmetadata, call_setDuration);
                     (timeupdate, sync_time)])%list ->
  exists r, audio r = audio q /\ dispatch loadedmetadata q = setDuration r.
Proof.
  intros Hl. unfold dispatch. rewrite Hl, fold_left_app. cbn.
  eexists. split; [|reflexivity].
  apply fold_listeners_audio.
Qed.

Lemma script_listeners (p : Page) :
  listeners (script p)
  = (listeners p ++ [(loadedmetadata, call_setDuration);
                     (timeupdate, sync_time)])%list.
Proof.
  unfold script. cbn.
  destruct (1 <=? readyState (audio p))%Z; cbn;
    rewrite <- app_assoc; reflexivity.
Qed.

(** On the listeners [script] registers, with none before, a [timeupdate]
    runs the listener of the source once. *)
Lemma dispatch_timeupdate_after_script (p : Page) :
  listeners p = [] ->
  dispatch timeupdate (script p) = on_timeupdate (script p).
Proof.
  intros Hl. unfold dispatch. rewrite script_listeners, Hl. reflexivity.
Qed.

(** When the metadata is there already, [script] itself calls
    [setDuration]. *)
Lemma script_ready (q : Page) :
  (1 <= readyState (audio q))%Z ->
  bounded_by (duration (audio q)) (script q).
Proof.
  intros Hr. unfold script. cbn [audio addEventListener].
  apply Z.leb_le in Hr. rewrite Hr. split; reflexivity.
Qed.

Lemma metadata_loaded_audio (d : number) (p : Page) :
  duration (audio (metadata_loaded d p)) = d
  /\ readyState (audio (metadata_loaded d p)) = 1%Z.
Proof.
  unfold metadata_loaded. rewrite dispatch_audio. split; reflexivity.
Qed.

(** C8. [setDuration] is idempotent: a second call returns the page of the
    first, on which the seek bar's [max] is the duration and the total-time
    label is [formatTime] of it.  For a duration [d] the same end state is
    reached when [loadedmetadata] fired before the script ran (the
    [readyState] check makes the call), when it fires after (the listener
    makes it), and when both calls are made. *)
Theorem setDuration_idempotent (d : number) (p : Page) :
  setDuration (setDuration p) = setDuration p
  /\ bounded_by (duration (audio p)) (setDuration p)
  /\ bounded_by d (script (metadata_loaded d p))
  /\ bounded_by d (metadata_loaded d (script p))
  /\ bounded_by d (metadata_loaded d (script (metadata_loaded d p))).
Proof.
  assert (Hlate : forall q, exists r,
             duration (audio r) = d
             /\ metadata_loaded d (script q) = setDuration r).
  { intros q. unfold metadata_loaded.
    edestruct dispatch_after_script as (r & Hr & Hd);
      [|exists r; split; [|exact Hd]].
    - cbn [listeners set_audio]. apply script_listeners.
    - rewrite Hr. reflexivity. }
  split.
  { unfold setDuration, set_totalTimeDisplay, set_seekBar.
    cbn [audio seekBar playBtn currentTimeDisplay totalTimeDisplay
         listeners].
    now rewrite set_max_idempotent. }
  split; [apply setDuration_bounded|].
  split; [|split].
  - destruct (metadata_loaded_audio d p) as [Hd Hr].
    rewrite <- Hd at 1. apply script_ready. rewrite Hr. lia.
  - destruct (Hlate p) as (r & Hr & ->). rewrite <- Hr.
    apply setDuration_bounded.
  - destruct (Hlate (metadata_loaded d p)) as (r & Hr & ->). rewrite <- Hr.
    apply setDuration_bounded.
Qed.




(** The scenario of a whole session: the duration of 185 seconds is known
    when the script runs, the user clicks play, the clock reaches 42.7
    seconds, the user drags the seek bar to 100. *)
Example session :
  let p1 := script (metadata_loaded (of_Z 185) fresh) in
  let p2 := togglePlay p1 in
  let p3 := time_advanced (div (of_Z 427) (of_Z 10)) p2 in
  let p4 := drag (of_Z 100) p3 in
  totalTimeDisplay p1 = "3:05"
  /\ (playBtn p2 = "||" /\ commands (audio p2) = [Play])
  /\ (currentTimeDisplay p3 = "0:42"
      /\ value (seekBar p3) = div (of_Z 427) (of_Z 10))
  /\ (currentTime (audio p4) = of_Z 100 /\ currentTimeDisplay p4 = "1:40").
Proof. vm_compute. repeat split. Qed.

End PlayerFacts.

Module ClassListFacts.
Import ClassList.

Lemma contains_app (t : string) (l1 l2 : classList) :
  contains t (l1 ++ l2) = contains t l1 || contains t l2.
Proof. apply existsb_app. Qed.

Lemma contains_single (t u : string) :
  contains t [u] = String.eqb t u.
Proof. unfold contains. cbn. apply orb_false_r. Qed.

Lemma contains_remove (t u : string) (l : classList) :
  contains t (remove u l) = negb (String.eqb u t) && contains t l.
Proof.
  unfold contains, remove.
  induction l as [|x l IH]; cbn [filter existsb].
  - now rewrite andb_false_r.
  - destruct (String.eqb u x) eqn:Hux; cbn [negb existsb].
    + rewrite IH. apply String.eqb_eq in Hux. subst x.
      rewrite (String.eqb_sym t u).
      destruct (String.eqb u t); reflexivity.
    + rewrite IH.
      destruct (String.eqb t x) eqn:Htx; cbn [orb].
      * apply String.eqb_eq in Htx. subst x. now rewrite Hux.
      * reflexivity.
Qed.

Lemma contains_add (t u : string) (l : classList) :
  contains t (add u l) = String.eqb t u || contains t l.
Proof.
  unfold add. destruct (contains u l) eqn:Hu.
  - destruct (String.eqb t u) eqn:Htu; [|reflexivity].
    apply String.eqb_eq in Htu. subst. now rewrite Hu.
  - rewrite contains_app, contains_single. apply orb_comm.
Qed.

Lemma contains_toggle (t u : string) (l : classList) :
  contains t (toggle u l)
  = if String.eqb t u then negb (contains u l) else contains t l.
Proof.
  unfold toggle. destruct (contains u l) eqn:Hu.
  - rewrite contains_remove, (String.eqb_sym u t).
    destruct (String.eqb t u); reflexivity.
  - rewrite contains_app, contains_single.
    destruct (String.eqb t u) eqn:Htu.
    + apply orb_true_r.
    + apply orb_false_r.
Qed.

Lemma remove_idempotent (t : string) (l : classList) :
  remove t (remove t l) = remove t l.
Proof.
  unfold remove. induction l as [|x l IH]; cbn; [reflexivity|].
  destruct (String.eqb t x) eqn:Hx; cbn; [exact IH|].
  rewrite Hx. cbn. now rewrite IH.
Qed.

Lemma remove_app (t : string) (l1 l2 : classList) :
  remove t (l1 ++ l2) = remove t l1 ++ remove t l2.
Proof. apply filter_app. Qed.

Lemma remove_absent (t : string) (l : classList) :
  contains t l = false -> remove t l = l.
Proof.
  unfold contains, remove.
  induction l as [|x l IH]; cbn; [reflexivity|].
  intros H. apply orb_false_iff in H. destruct H as [Hx Hl].
  rewrite Hx. cbn. now rewrite IH.
Qed.

End ClassListFacts.

Module NavFacts.
Import ClassList ClassListFacts Nav.
Local Open Scope string_scope.

Lemma split_not_nil (sep : ascii) (s : string) : split sep s <> [].
Proof.
  induction s as [|c s IH]; cbn; [discriminate|].
  destruct (Ascii.eqb c sep); [discriminate|].
  destruct (split sep s); [contradiction|discriminate].
Qed.

Lemma pop_app (l1 l2 : list string) :
  l2 <> [] -> pop (l1 ++ l2)%list = pop l2.
Proof.
  intros Hne. induction l1 as [|x l1 IH]; [reflexivity|].
  cbn [app]. destruct (l1 ++ l2)%list as [|y r] eqn:E.
  - apply app_eq_nil in E. destruct E. contradiction.
  - exact IH.
Qed.

(** A string without the separator is a single piece. *)
Lemma split_free (sep : ascii) (s : string) :
  free_of sep s = true -> split sep s = [s].
Proof.
  induction s as [|c s IH]; cbn; [reflexivity|].
  intros H. apply andb_true_iff in H. destruct H as [Hc Hs].
  apply negb_true_iff in Hc. rewrite Hc, (IH Hs). reflexivity.
Qed.

(** Splitting around one separator splits both sides. *)
Lemma split_app (sep : ascii) (d x : string) :
  split sep (d ++ String sep x) = (split sep d ++ split sep x)%list.
Proof.
  induction d as [|c d IH]; cbn.
  - now rewrite Ascii.eqb_refl.
  - destruct (Ascii.eqb c sep); [now rewrite IH|].
    rewrite IH. pose proof (split_not_nil sep d) as Hne.
    destruct (split sep d); [contradiction|reflexivity].
Qed.

(** Every string is a directory part, empty or ending in the separator,
    followed by a piece without separator. *)
Lemma last_piece (sep : ascii) (s : string) :
  exists dir seg,
    s = dir ++ seg /\ free_of sep seg = true
    /\ (dir = "" \/ exists d, dir = d ++ String sep "").
Proof.
  induction s as [|c s (dir & seg & Hs & Hfree & Hdir)].
  - exists "", "". repeat split. now left.
  - destruct Hdir as [-> | (d & ->)].
    + cbn in Hs. subst s. destruct (Ascii.eqb c sep) eqn:Hc.
      * apply Ascii.eqb_eq in Hc. subst c.
        exists (String sep ""), seg. repeat split; [exact Hfree|].
        right. exists "". reflexivity.
      * exists "", (String c seg). repeat split; [|now left].
        cbn. now rewrite Hc, Hfree.
    + exists (String c (d ++ String sep "")), seg. subst s.
      repeat split; [exact Hfree|]. right. exists (String c d). reflexivity.
Qed.

Lemma append_assoc (a b c : string) : (a ++ b) ++ c = a ++ (b ++ c).
Proof. induction a as [|x a IH]; cbn; [reflexivity | now rewrite IH]. Qed.

Lemma pop_split (sep : ascii) (dir seg : string) :
  free_of sep seg = true ->
  (dir = "" \/ exists d, dir = d ++ String sep "") ->
  pop (split sep (dir ++ seg)) = Some seg.
Proof.
  intros Hfree [-> | (d & ->)].
  - cbn [append]. now rewrite split_free.
  - rewrite append_assoc. cbn [append].
    rewrite split_app, pop_app by apply split_not_nil.
    now rewrite split_free.
Qed.

Lemma currentPage_not_empty (pathname : string) :
  String.eqb (currentPage pathname) "" = false.
Proof.
  unfold currentPage. destruct (pop (split "/" pathname)) as [page|];
    [|reflexivity].
  destruct (String.eqb page "") eqn:E; [reflexivity | exact E].
Qed.

(** X1. The current page is what follows the last "/" of the pathname, and
    "index.html" when nothing follows it; it is never empty and holds no
    "/". *)
Theorem currentPage_last_segment (pathname : string) :
  exists dir seg,
    pathname = dir ++ seg
    /\ free_of "/" seg = true
    /\ (dir = "" \/ exists d, dir = d ++ "/")
    /\ currentPage pathname = (if String.eqb seg "" then "index.html" else seg)
    /\ currentPage pathname <> ""
    /\ free_of "/" (currentPage pathname) = true.
Proof.
  destruct (last_piece "/" pathname) as (dir & seg & Hs & Hfree & Hdir).
  exists dir, seg.
  assert (Hcp : currentPage pathname
                = if String.eqb seg "" then "index.html" else seg).
  { unfold currentPage. rewrite Hs, (pop_split "/" dir seg Hfree Hdir).
    reflexivity. }
  repeat split; try assumption.
  - intros H. pose proof (currentPage_not_empty pathname) as Hne.
    rewrite H in Hne. discriminate.
  - rewrite Hcp. destruct (String.eqb seg ""); [reflexivity | exact Hfree].
Qed.

Lemma is_current_iff (pathname : string) (h : option string) :
  is_current (currentPage pathname) h
  = href_is h (currentPage pathname)
    || (String.eqb (currentPage pathname) "index.html" && href_is h "").
Proof.
  unfold is_current. rewrite currentPage_not_empty. cbn [andb].
  rewrite orb_false_r.
  destruct (String.eqb (currentPage pathname) "index.html") eqn:E;
    [|reflexivity].
  apply String.eqb_eq in E. rewrite E. cbn [andb].
  destruct (href_is h "index.html"); reflexivity.
Qed.

(** X2. After [setActiveNavLink] a link carries "active" exactly when its
    [href] is the current page, or is empty on "index.html"; what the class
    list held before does not matter, a link without [href] is never active,
    and every other class is kept. *)
Theorem setActiveNavLink_marks (pathname : string) (navLinks : list NavLink)
        (i : nat) (link : NavLink) :
  nth_error navLinks i = Some link ->
  exists link',
    nth_error (setActiveNavLink pathname navLinks) i = Some link'
    /\ href link' = href link
    /\ contains "active" (classes link')
       = href_is (href link) (currentPage pathname)
         || (String.eqb (currentPage pathname) "index.html"
             && href_is (href link) "")
    /\ forall c, c <> "active" ->
                 contains c (classes link') = contains c (classes link).
Proof.
  intros Hi. unfold setActiveNavLink.
  rewrite nth_error_map, Hi. cbn [option_map].
  eexists. split; [reflexivity|]. cbn [href classes].
  rewrite is_current_iff. split; [reflexivity|]. split.
  - destruct (href_is (href link) (currentPage pathname)
              || String.eqb (currentPage pathname) "index.html"
                 && href_is (href link) "").
    + rewrite contains_add. reflexivity.
    + rewrite contains_remove, String.eqb_refl. reflexivity.
  - intros c Hc.
    assert (Hcb : String.eqb c "active" = false) by now apply String.eqb_neq.
    destruct (href_is (href link) (currentPage pathname)
              || String.eqb (currentPage pathname) "index.html"
                 && href_is (href link) "").
    + rewrite contains_add, Hcb, contains_remove, String.eqb_sym, Hcb.
      reflexivity.
    + rewrite contains_remove, String.eqb_sym, Hcb. reflexivity.
Qed.

Lemma setActiveNavLink_marks_witness :
  exists link',
    nth_error (setActiveNavLink "/site/about.html" example_links) 1
    = Some link'
    /\ href link' = Some "about.html"
    /\ contains "active" (classes link') = true
    /\ forall c, c <> "active" ->
                 contains c (classes link') = contains c ["nav-link"].
Proof.
  exact (setActiveNavLink_marks "/site/about.html" example_links 1
           {| href := Some "about.html"; classes := ["nav-link"] |} eq_refl).
Defined.

(** X3. [setActiveNavLink] is idempotent: run again on the same pathname it
    returns the links unchanged. *)
Theorem setActiveNavLink_idempotent (pathname : string)
        (navLinks : list NavLink) :
  setActiveNavLink pathname (setActiveNavLink pathname navLinks)
  = setActiveNavLink pathname navLinks.
Proof.
  unfold setActiveNavLink. rewrite map_map. apply map_ext.
  intros link. cbn [href classes]. f_equal.
  destruct (is_current (currentPage pathname) (href link)).
  - unfold add at 2. rewrite contains_remove, String.eqb_refl. cbn [negb andb].
    rewrite remove_app, remove_idempotent. cbn [remove filter].
    rewrite String.eqb_refl. cbn [negb]. rewrite app_nil_r.
    unfold add. rewrite contains_remove, String.eqb_refl. reflexivity.
  - now rewrite remove_idempotent.
Qed.

End NavFacts.

Module HamburgerFacts.
Import ClassList ClassListFacts Hamburger.
Local Open Scope string_scope.

Ltac menu_fields :=
  cbn [handle run fold_left on_hamburger_click on_link_click
       hamburger navContainer].

Lemma handle_keeps_sync (m : Menu) (c : Click) :
  crossed m = shown m -> crossed (handle m c) = shown (handle m c).
Proof.
  unfold crossed, shown. intros H. destruct c; menu_fields.
  - rewrite !contains_toggle, !String.eqb_refl. now rewrite H.
  - rewrite !contains_remove, !String.eqb_refl. reflexivity.
Qed.

Lemma run_keeps_sync (clicks : list Click) (m : Menu) :
  crossed m = shown m -> crossed (run clicks m) = shown (run clicks m).
Proof.
  revert m. induction clicks as [|c clicks IH]; intros m H; menu_fields.
  - exact H.
  - apply IH. now apply handle_keeps_sync.
Qed.

Lemma link_click_closes (m : Menu) :
  crossed (on_link_click m) = false /\ shown (on_link_click m) = false.
Proof.
  unfold crossed, shown. menu_fields.
  rewrite !contains_remove, !String.eqb_refl. split; reflexivity.
Qed.

(** X4. The button and the menu stay in step: when they agree at the start,
    or once a menu link has been clicked, the button shows the cross exactly
    when the menu is shown, after any further clicks. *)
Theorem hamburger_in_step (clicks : list Click) (m : Menu) :
  crossed m = shown m \/ In ClickLink clicks ->
  crossed (run clicks m) = shown (run clicks m).
Proof.
  revert m. induction clicks as [|c clicks IH]; intros m [H | H].
  - exact H.
  - contradiction.
  - now apply run_keeps_sync.
  - menu_fields. destruct H as [-> | H].
    + apply run_keeps_sync. menu_fields.
      destruct (link_click_closes m) as [-> ->]. reflexivity.
    + apply IH. now right.
Qed.

Lemma hamburger_in_step_witness :
  crossed unsynced <> shown unsynced
  /\ crossed (run [ClickHamburger; ClickLink; ClickHamburger] unsynced)
     = shown (run [ClickHamburger; ClickLink; ClickHamburger] unsynced).
Proof.
  split; [discriminate|].
  apply (hamburger_in_step [ClickHamburger; ClickLink; ClickHamburger]
                           unsynced).
  right. cbn. tauto.
Defined.

(** X5. A click on the button flips the cross and the menu; a second click
    brings every class of both elements back. *)
Theorem hamburger_click_twice (m : Menu) :
  crossed (on_hamburger_click m) = negb (crossed m)
  /\ shown (on_hamburger_click m) = negb (shown m)
  /\ forall c : string,
       contains c (hamburger (on_hamburger_click (on_hamburger_click m)))
       = contains c (hamburger m)
       /\ contains c
            (navContainer (on_hamburger_click (on_hamburger_click m)))
          = contains c (navContainer m).
Proof.
  unfold crossed, shown. menu_fields.
  rewrite !contains_toggle, !String.eqb_refl.
  split; [reflexivity|]. split; [reflexivity|].
  intros c. rewrite !contains_toggle, !String.eqb_refl.
  split.
  - destruct (String.eqb c "is-active") eqn:E; [|reflexivity].
    apply String.eqb_eq in E. subst c. apply negb_involutive.
  - destruct (String.eqb c "active") eqn:E; [|reflexivity].
    apply String.eqb_eq in E. subst c. apply negb_involutive.
Qed.

End HamburgerFacts.

Module DebounceFacts.
Import Timers Debounce.

Section Closure.
Variable A : Type.
Variable St : Type.
Variable func : A -> St -> St.
Variable wait : Z.


Lemma single_created (s : St) : single (created (A := A) s).
Proof. exact I. Qed.

(** A call leaves exactly its own timer pending. *)
Lemma executedFunction_pending (args : A) (c : closure A St) :
  single c ->
  let c' := executedFunction wait args c in
  pending (queue c')
  = [{| handle := fresh (queue c);
        due := clock (queue c) + Z.max 0 wait; callback := args |}]
  /\ timeout c' = Some (fresh (queue c))
  /\ fresh (queue c') = S (fresh (queue c))
  /\ clock (queue c') = clock (queue c)
  /\ state c' = state c.
Proof.
  intros Hs. unfold single in Hs. unfold executedFunction.
  destruct c as [tmo [clk fr pend] st]. cbn in *.
  destruct pend as [|t [|u pend]]; [| |contradiction].
  - destruct tmo; cbn; repeat split.
  - destruct Hs as [-> _]. cbn. rewrite Nat.eqb_refl. cbn. repeat split.
Qed.

Lemma executedFunction_single (args : A) (c : closure A St) :
  single c -> single (executedFunction wait args c).
Proof.
  intros Hs. destruct (executedFunction_pending args c Hs)
    as (Hp & Ht & Hf & _).
  unfold single. rewrite Hp, Ht, Hf. cbn. split; [reflexivity | lia].
Qed.

(** Time passing with one timer pending: it runs when due, and then
    nothing is pending. *)
Lemma elapse_one (dt : Z) (c : closure A St) (t : timer A) :
  pending (queue c) = [t] ->
  elapse func dt c
  = if due t <=? clock (queue c) + Z.max 0 dt
    then {| timeout := timeout c;
            queue := at_time (clock (queue c) + Z.max 0 dt)
                       (clearTimeout (timeout c)
                          {| clock := Z.max (clock (queue c)) (due t);
                             fresh := fresh (queue c); pending := [] |});
            state := func (callback t) (state c) |}
    else {| timeout := timeout c;
            queue := at_time (clock (queue c) + Z.max 0 dt) (queue c);
            state := state c |}.
Proof.
  intros Hp. unfold elapse. rewrite Hp. cbn [List.length fire].
  unfold take. rewrite Hp. cbn [first_due].
  destruct (due t <=? clock (queue c) + Z.max 0 dt); [|reflexivity].
  cbn. rewrite Nat.eqb_refl. reflexivity.
Qed.

Lemma elapse_none (dt : Z) (c : closure A St) :
  pending (queue c) = [] ->
  elapse func dt c
  = {| timeout := timeout c;
       queue := at_time (clock (queue c) + Z.max 0 dt) (queue c);
       state := state c |}.
Proof. intros Hp. unfold elapse. rewrite Hp. reflexivity. Qed.

Lemma elapse_single (dt : Z) (c : closure A St) :
  single c -> single (elapse func dt c).
Proof.
  intros Hs. unfold single in Hs.
  destruct (pending (queue c)) as [|t [|u l]] eqn:Hp; [| |contradiction].
  - rewrite elapse_none by exact Hp. unfold single. cbn. now rewrite Hp.
  - rewrite (elapse_one dt c t Hp).
    destruct (due t <=? clock (queue c) + Z.max 0 dt).
    + unfold single. cbn. destruct (timeout c); exact I.
    + unfold single. cbn. rewrite Hp. exact Hs.
Qed.

Lemma burst_cons (a : A) (dt : Z) (steps : list (A * Z)) (c : closure A St) :
  burst func wait ((a, dt) :: steps) c
  = burst func wait steps (elapse func dt (executedFunction wait a c)).
Proof. reflexivity. Qed.

Lemma burst_single (steps : list (A * Z)) (c : closure A St) :
  single c -> single (burst func wait steps c).
Proof.
  revert c. induction steps as [|[a dt] steps IH]; intros c Hs.
  - exact Hs.
  - rewrite burst_cons. apply IH, elapse_single.
    now apply executedFunction_single.
Qed.

(** X6. A debounced function never has more than one timer pending: from
    its creation on, after any calls and any waits, at most the timer that
    [timeout] names is in the queue. *)
Theorem debounce_one_timer (steps : list (A * Z)) (s : St) :
  single (burst func wait steps (created s)).
Proof. apply burst_single, single_created. Qed.

(** A call followed by less than [wait] runs nothing. *)
Lemma call_then_short_wait (c : closure A St) (args : A) (dt : Z) :
  single c -> 0 <= dt < wait ->
  state (elapse func dt (executedFunction wait args c)) = state c
  /\ single (elapse func dt (executedFunction wait args c)).
Proof.
  intros Hs Hdt. split; [|now apply elapse_single, executedFunction_single].
  destruct (executedFunction_pending args c Hs) as (Hp & _ & _ & Hc & Hst).
  rewrite (elapse_one dt _ _ Hp). cbn [due]. rewrite Hc.
  replace (clock (queue c) + Z.max 0 wait <=? clock (queue c) + Z.max 0 dt)
    with false by (symmetry; apply Z.leb_gt; lia).
  exact Hst.
Qed.

Lemma burst_runs_nothing (steps : list (A * Z)) (c : closure A St) :
  single c ->
  Forall (fun step => 0 <= snd step < wait) steps ->
  state (burst func wait steps c) = state c /\ single (burst func wait steps c).
Proof.
  revert c. induction steps as [|[a dt] steps IH]; intros c Hs Hall.
  - now split.
  - inversion Hall as [|x l Hdt Hrest]; subst. cbn [snd] in Hdt.
    destruct (call_then_short_wait c a dt Hs Hdt) as [Hst Hs'].
    destruct (IH _ Hs' Hrest) as [Hst2 Hs2].
    rewrite burst_cons. split; [|exact Hs2]. now rewrite Hst2.
Qed.

(** X7. Calls that follow each other by less than [wait] run [func] once:
    when the last call has been followed by [wait] or more, the state is
    [func] of the last arguments on the state from before the burst, and no
    timer is left pending. *)
Theorem debounce_runs_last (steps : list (A * Z)) (args : A) (dt : Z)
        (c : closure A St) :
  single c ->
  Forall (fun step => 0 <= snd step < wait) steps ->
  0 <= wait <= dt ->
  let c' :=
    elapse func dt (executedFunction wait args (burst func wait steps c)) in
  state c' = func args (state c) /\ pending (queue c') = [].
Proof.
  intros Hs Hall Hdt.
  destruct (burst_runs_nothing steps c Hs Hall) as [Hst Hs'].
  destruct (executedFunction_pending args _ Hs') as (Hp & Ht & _ & Hc & Hst').
  cbn zeta. rewrite (elapse_one dt _ _ Hp). cbn [due]. rewrite Hc.
  replace (clock (queue (burst func wait steps c)) + Z.max 0 wait
           <=? clock (queue (burst func wait steps c)) + Z.max 0 dt)
    with true by (symmetry; apply Z.leb_le; lia).
  cbn [state queue]. rewrite Hst', Hst. split; [reflexivity|].
  rewrite Ht. reflexivity.
Qed.

End Closure.

(** X8. [throttle] postpones like [debounce]: while calls keep coming less
    than [wait] apart, [func] is not run at all. *)
Theorem throttle_postpones (A St : Type) (func : A -> St -> St) (wait : Z)
        (steps : list (A * Z)) (c : closure A St) :
  single c ->
  Forall (fun step => 0 <= snd step < wait) steps ->
  state (fold_left
           (fun c step => elapse func (snd step) (throttle wait (fst step) c))
           steps c)
  = state c.
Proof.
  intros Hs Hall.
  exact (proj1 (burst_runs_nothing A St func wait steps c Hs Hall)).
Qed.

(** Three calls 100 ms apart, then quiet: only the last is run. *)
Lemma debounce_runs_last_witness :
  let log := fun (a : nat) (l : list nat) => (l ++ [a])%list in
  let c' := elapse log 250
              (executedFunction 250 3%nat
                 (burst log 250 [(1%nat, 100); (2%nat, 100)] (created []))) in
  state c' = [3%nat] /\ pending (queue c') = [].
Proof.
  apply (debounce_runs_last nat (list nat)
           (fun a l => (l ++ [a])%list) 250
           [(1%nat, 100); (2%nat, 100)] 3%nat 250 (created [])).
  - exact I.
  - repeat constructor; cbn; lia.
  - lia.
Defined.

Lemma throttle_postpones_witness :
  let log := fun (a : nat) (l : list nat) => (l ++ [a])%list in
  state (fold_left
           (fun c step => elapse log (snd step) (throttle 250 (fst step) c))
           [(1%nat, 100); (2%nat, 100); (3%nat, 249)] (created []))
  = [].
Proof.
  apply (throttle_postpones nat (list nat) (fun a l => (l ++ [a])%list) 250
           [(1%nat, 100); (2%nat, 100); (3%nat, 249)] (created [])).
  - exact I.
  - repeat constructor; cbn; lia.
Defined.

End DebounceFacts.

Module TimersFacts.
Import Timers.
Section Queue.
Variable T : Type.

(** The timer that runs first is pending and none is due earlier. *)
Lemma first_due_min (l : list (timer T)) (t : timer T) :
  first_due l = Some t ->
  In t l /\ forall u, In u l -> due t <= due u.
Proof.
  revert t. induction l as [|x l IH]; intros t; cbn; [discriminate|].
  destruct (first_due l) as [u|] eqn:E.
  - destruct (IH u eq_refl) as [Hin Hmin].
    destruct (due u <? due x) eqn:Hlt; intros H; injection H as <-.
    + apply Z.ltb_lt in Hlt. split; [now right|].
      intros v [<- | Hv]; [lia | now apply Hmin].
    + apply Z.ltb_ge in Hlt. split; [now left|].
      intros v [<- | Hv]; [lia|]. specialize (Hmin v Hv). lia.
  - intros H. injection H as <-. split; [now left|].
    destruct l as [|y l]; [|cbn in E; destruct (first_due l);
                            [destruct (_ <? _)|]; discriminate].
    intros v [<- | []]. lia.
Qed.

Lemma first_due_none (l : list (timer T)) :
  first_due l = None -> l = [].
Proof.
  destruct l as [|x l]; [reflexivity|]. cbn.
  destruct (first_due l); [destruct (_ <? _)|]; discriminate.
Qed.

(** What [take] hands out was pending and due; what it leaves was pending
    before. *)
Lemma take_some (limit : Z) (q q' : timers T) (t : timer T) :
  take limit q = Some (t, q') ->
  In t (pending q) /\ due t <= limit
  /\ fresh q' = fresh q
  /\ pending q' = filter (fun u => negb (Nat.eqb (handle u) (handle t)))
                         (pending q).
Proof.
  unfold take. destruct (first_due (pending q)) as [u|] eqn:E;
    [|discriminate].
  destruct (due u <=? limit) eqn:Hd; [|discriminate].
  intros H. injection H as <- <-. apply Z.leb_le in Hd.
  destruct (first_due_min _ _ E) as [Hin _]. now repeat split.
Qed.

(** A pending timer that is due is not left waiting. *)
Lemma take_due (limit : Z) (q : timers T) (u : timer T) :
  In u (pending q) -> due u <= limit ->
  exists t q', take limit q = Some (t, q').
Proof.
  intros Hin Hd. unfold take.
  destruct (first_due (pending q)) as [t|] eqn:E.
  - destruct (first_due_min _ _ E) as [_ Hmin]. specialize (Hmin u Hin).
    replace (due t <=? limit) with true by (symmetry; apply Z.leb_le; lia).
    eauto.
  - apply first_due_none in E. rewrite E in Hin. contradiction.
Qed.

Lemma filter_shorter (f : timer T -> bool) (l : list (timer T))
      (t : timer T) :
  In t l -> f t = false ->
  (List.length (filter f l) < List.length l)%nat.
Proof.
  induction l as [|x l IH]; intros Hin Hf; [contradiction|].
  cbn. destruct Hin as [-> | Hin].
  - rewrite Hf. pose proof (filter_length_le f l). lia.
  - specialize (IH Hin Hf). destruct (f x); cbn; lia.
Qed.

End Queue.
End TimersFacts.

Module DropdownsFacts.
Import Timers TimersFacts Dropdowns.

Lemma update_length {X : Type} (i : nat) (x : X) (l : list X) :
  List.length (update i x l) = List.length l.
Proof.
  revert i. induction l as [|y l IH]; intros [|i]; cbn; auto.
Qed.

Lemma nth_error_update_eq {X : Type} (i : nat) (x : X) (l : list X) :
  (i < List.length l)%nat -> nth_error (update i x l) i = Some x.
Proof.
  revert i. induction l as [|y l IH]; intros [|i] H; cbn in *; try lia.
  - reflexivity.
  - apply IH. lia.
Qed.

Lemma nth_error_update_neq {X : Type} (i j : nat) (x : X) (l : list X) :
  i <> j -> nth_error (update i x l) j = nth_error l j.
Proof.
  revert i j. induction l as [|y l IH]; intros [|i] [|j] H; cbn;
    try reflexivity; try contradiction.
  apply IH. congruence.
Qed.

Lemma Forall_update {X : Type} (P : X -> Prop) (i : nat) (x : X)
      (l : list X) :
  P x -> Forall P l -> Forall P (update i x l).
Proof.
  intros Hx. revert i. induction l as [|y l IH]; intros [|i] H; cbn;
    inversion H; subst; constructor; auto.
Qed.

(** What holds before the due timers run and is kept by each of them holds
    after. *)
Lemma fire_invariant (P : Nav -> Prop) (limit : Z) :
  (forall w t q,
      take limit (queue w) = Some (t, q) -> P w ->
      P (run_callback (callback t) (with_queue q w))) ->
  forall fuel w, P w -> P (fire fuel limit w).
Proof.
  intros Hstep. induction fuel as [|fuel IH]; intros w Hw; cbn; [exact Hw|].
  destruct (take limit (queue w)) as [[t q]|] eqn:E; [|exact Hw].
  apply IH. now apply (Hstep w t q).
Qed.

(** Running a callback sets no timer. *)
Lemma run_callback_pending (cb : Callback) (w : Nav) (u : timer Callback) :
  In u (pending (queue (run_callback cb w))) -> In u (pending (queue w)).
Proof.
  destruct cb; cbn; [auto|].
  destruct (resizeTimeout w); cbn; [|auto].
  intros H. apply filter_In in H. tauto.
Qed.

Lemma step_pending (limit : Z) (w : Nav) (t : timer Callback)
      (q : timers Callback) (u : timer Callback) :
  take limit (queue w) = Some (t, q) ->
  In u (pending (queue (run_callback (callback t) (with_queue q w)))) ->
  In u (pending (queue w)) /\ handle u <> handle t.
Proof.
  intros Ht Hu. apply run_callback_pending in Hu. cbn in Hu.
  destruct (take_some _ _ _ _ _ Ht) as (_ & _ & _ & Hp).
  rewrite Hp in Hu. apply filter_In in Hu. destruct Hu as [Hin Hne].
  split; [exact Hin|]. apply negb_true_iff, Nat.eqb_neq in Hne. exact Hne.
Qed.

Lemma fire_pending (fuel : nat) (limit : Z) (w : Nav)
      (u : timer Callback) :
  In u (pending (queue (fire fuel limit w))) -> In u (pending (queue w)).
Proof.
  revert u. apply (fire_invariant
    (fun w' => forall u, In u (pending (queue w')) ->
                         In u (pending (queue w))) limit); [|auto].
  intros w' t q Ht Hw' u Hu. apply Hw'.
  now apply (step_pending limit w' t q u Ht).
Qed.

Lemma fire_frame (fuel : nat) (limit : Z) (w : Nav) :
  items (fire fuel limit w) = items w
  /\ innerWidth (fire fuel limit w) = innerWidth w
  /\ List.length (menus (fire fuel limit w)) = List.length (menus w).
Proof.
  apply (fire_invariant
    (fun w' => items w' = items w /\ innerWidth w' = innerWidth w
               /\ List.length (menus w') = List.length (menus w)) limit);
    [|auto].
  intros w' t q _ (Hi & Hw & Hl). destruct (callback t); cbn.
  - rewrite update_length. auto.
  - rewrite length_map. auto.
Qed.

Lemma consistent_styles :
  consistent no_style /\ consistent shown_style /\ consistent hidden_style.
Proof. unfold consistent. auto. Qed.

Lemma run_callback_consistent (cb : Callback) (w : Nav) :
  Forall consistent (menus w) ->
  Forall consistent (menus (run_callback cb w)).
Proof.
  intros H. destruct cb; cbn.
  - apply Forall_update; [apply consistent_styles | exact H].
  - apply Forall_map. eapply Forall_impl; [|exact H].
    intros s Hs. destruct (768 <? innerWidth w);
      [apply consistent_styles | exact Hs].
Qed.

Lemma step_consistent (w : Nav) (e : Event) :
  Forall consistent (menus w) -> Forall consistent (menus (step w e)).
Proof.
  intros H. destruct e as [i|i|i|inside|width|dt]; cbn [step].
  - unfold on_mouseenter.
    destruct (nth_error (items w) i) as [[[d|] h]|]; try exact H.
    cbn. apply Forall_update; [apply consistent_styles | exact H].
  - unfold on_mouseleave.
    destruct (nth_error (items w) i) as [[[d|] h]|]; exact H.
  - unfold on_navlink_click.
    destruct (nth_error (items w) i) as [[[d|] h]|]; try exact H.
    destruct (innerWidth w <=? 768); [|exact H].
    cbn. apply Forall_update; [|exact H].
    destruct (nth_error (menus w) d) as [s|];
      [destruct (String.eqb _ _)|]; apply consistent_styles.
  - unfold on_document_click. destruct inside; cbn; [exact H|].
    apply Forall_map. eapply Forall_impl; [|exact H].
    intros. apply consistent_styles.
  - exact H.
  - unfold elapse. cbn.
    apply (fire_invariant (fun w' => Forall consistent (menus w'))); [|exact H].
    intros w' t q _ Hw'. now apply run_callback_consistent.
Qed.

(** X9. The three style properties of a dropdown move together: when every
    menu starts without inline style, shown or hidden, then after any
    hovering, clicking, resizing and waiting each menu is again in one of
    these three states, never in a mixture. *)
Theorem dropdown_styles_consistent (events : list Event) (w : Nav) :
  Forall consistent (menus w) ->
  Forall consistent (menus (run events w)).
Proof.
  revert w. induction events as [|e events IH]; intros w H; cbn.
  - exact H.
  - apply IH. now apply step_consistent.
Qed.

Lemma dropdown_styles_consistent_witness :
  Forall consistent
    (menus (run [MouseEnter 0; Resize 500; ClickNavLink 0; MouseLeave 0;
                 Elapse 300; ClickElsewhere false] desktop)).
Proof.
  apply (dropdown_styles_consistent
           [MouseEnter 0; Resize 500; ClickNavLink 0; MouseLeave 0;
            Elapse 300; ClickElsewhere false] desktop).
  repeat constructor.
Defined.

Lemma existsb_false {X : Type} (f : X -> bool) (l : list X) :
  existsb f l = false -> forall x, In x l -> f x = false.
Proof.
  intros H x Hx. destruct (f x) eqn:E; [|reflexivity].
  assert (existsb f l = true) by (apply existsb_exists; eauto). congruence.
Qed.

Lemma false_existsb {X : Type} (f : X -> bool) (l : list X) :
  (forall x, In x l -> f x = false) -> existsb f l = false.
Proof.
  intros H. destruct (existsb f l) eqn:E; [|reflexivity].
  apply existsb_exists in E. destruct E as (x & Hx & Hf).
  rewrite (H x Hx) in Hf. discriminate.
Qed.

(** The menu [d] is left alone by timers that neither hide it nor reset. *)
Lemma fire_keeps_menu (d : nat) (fuel : nat) (limit : Z) (w : Nav) :
  hide_pending d w = false -> resize_pending w = false ->
  nth_error (menus (fire fuel limit w)) d = nth_error (menus w) d.
Proof.
  intros Hh Hr.
  apply (fire_invariant
    (fun w' => (hide_pending d w' = false /\ resize_pending w' = false)
               /\ nth_error (menus w') d = nth_error (menus w) d) limit);
    [|auto].
  intros w' t q Ht ((Hh' & Hr') & Hm).
  destruct (take_some _ _ _ _ _ Ht) as (Hin & _).
  pose proof (existsb_false _ _ Hh' t Hin) as Ht1.
  pose proof (existsb_false _ _ Hr' t Hin) as Ht2.
  split.
  - split; apply false_existsb; intros u Hu;
      apply (step_pending limit w' t q u Ht) in Hu; destruct Hu as [Hu _].
    + exact (existsb_false _ _ Hh' u Hu).
    + exact (existsb_false _ _ Hr' u Hu).
  - cbn beta in Ht1, Ht2.
    destruct (callback t) as [d'|]; [|discriminate Ht2]. cbn.
    rewrite nth_error_update_neq; [exact Hm|].
    apply Nat.eqb_neq. exact Ht1.
Qed.

Lemma mouseleave_state (i d : nat) (h0 : option nat) (w : Nav) :
  nth_error (items w) i = Some {| dropdown := Some d; hoverTimeout := h0 |} ->
  let u := {| handle := fresh (queue w); due := clock (queue w) + 200;
              callback := Hide d |} in
  let w1 := on_mouseleave i w in
  pending (queue w1) = (pending (queue w) ++ [u])%list
  /\ clock (queue w1) = clock (queue w)
  /\ nth_error (items w1) i
     = Some {| dropdown := Some d; hoverTimeout := Some (fresh (queue w)) |}
  /\ menus w1 = menus w /\ innerWidth w1 = innerWidth w.
Proof.
  intros Hi. unfold on_mouseleave. rewrite Hi. cbn.
  repeat split. apply nth_error_update_eq.
  apply nth_error_Some. congruence.
Qed.

(** X10. Re-entering a nav item cancels the hide that leaving it had set:
    after [mouseleave], any wait and [mouseenter], the dropdown is shown and
    no timer that would hide it is pending, so, with no resize pending
    either, it stays shown however long the pointer rests. *)
Theorem reenter_cancels_hide (i d : nat) (h0 : option nat) (dt : Z)
        (w : Nav) :
  nth_error (items w) i = Some {| dropdown := Some d; hoverTimeout := h0 |} ->
  (d < List.length (menus w))%nat ->
  hide_pending d w = false ->
  let w' := on_mouseenter i (elapse dt (on_mouseleave i w)) in
  nth_error (menus w') d = Some shown_style
  /\ hide_pending d w' = false
  /\ (resize_pending w = false ->
      forall dt', nth_error (menus (elapse dt' w')) d = Some shown_style).
Proof.
  intros Hi Hd Hh.
  destruct (mouseleave_state i d h0 w Hi) as (Hp1 & _ & Hi1 & Hm1 & _).
  set (w1 := on_mouseleave i w) in *.
  set (h := fresh (queue w)) in *.
  set (w2 := elapse dt w1).
  assert (Hsub : forall t, In t (pending (queue w2)) ->
                           In t (pending (queue w)) \/ handle t = h).
  { intros t Ht. unfold w2, elapse in Ht. cbn in Ht.
    apply fire_pending in Ht. rewrite Hp1 in Ht.
    apply in_app_or in Ht. destruct Ht as [Ht | [<- | []]]; auto. }
  assert (Hi2 : nth_error (items w2) i
                = Some {| dropdown := Some d; hoverTimeout := Some h |}).
  { unfold w2, elapse. cbn.
    destruct (fire_frame (List.length (pending (queue w1)))
                (clock (queue w1) + Z.max 0 dt) w1) as (-> & _). exact Hi1. }
  assert (Hl2 : List.length (menus w2) = List.length (menus w)).
  { unfold w2, elapse. cbn.
    destruct (fire_frame (List.length (pending (queue w1)))
                (clock (queue w1) + Z.max 0 dt) w1) as (_ & _ & ->).
    now rewrite Hm1. }
  cbn zeta. fold w1. fold w2.
  unfold on_mouseenter. rewrite Hi2.
  assert (Hpend : forall t,
             In t (pending (queue (set_style d shown_style
                      (with_queue (clearTimeout (Some h) (queue w2)) w2)))) ->
             In t (pending (queue w)) /\ handle t <> h).
  { cbn. intros t Ht. apply filter_In in Ht. destruct Ht as [Ht Hne].
    apply negb_true_iff, Nat.eqb_neq in Hne.
    destruct (Hsub t Ht); [auto | contradiction]. }
  assert (Hh' : hide_pending d (set_style d shown_style
                  (with_queue (clearTimeout (Some h) (queue w2)) w2)) = false).
  { apply false_existsb. intros t Ht. apply Hpend in Ht.
    exact (existsb_false _ _ Hh t (proj1 Ht)). }
  assert (Hshown : nth_error (menus (set_style d shown_style
                     (with_queue (clearTimeout (Some h) (queue w2)) w2))) d
                   = Some shown_style).
  { unfold set_style. cbn [menus with_menus with_queue].
    apply nth_error_update_eq. rewrite Hl2. exact Hd. }
  split; [exact Hshown|]. split; [exact Hh'|].
  intros Hr dt'. unfold elapse. cbn [menus with_queue].
  rewrite fire_keeps_menu; [exact Hshown | exact Hh' |].
  apply false_existsb. intros t Ht. apply Hpend in Ht.
  exact (existsb_false _ _ Hr t (proj1 Ht)).
Qed.

Lemma reenter_cancels_hide_witness :
  let w' := on_mouseenter 0 (elapse 150 (on_mouseleave 0 desktop)) in
  nth_error (menus w') 0 = Some shown_style
  /\ hide_pending 0 w' = false
  /\ (resize_pending desktop = false ->
      forall dt', nth_error (menus (elapse dt' w')) 0 = Some shown_style).
Proof.
  apply (reenter_cancels_hide 0 0 None 150 desktop).
  - reflexivity.
  - cbn. lia.
  - reflexivity.
Defined.

Lemma run_hide_menu (d d' : nat) (w : Nav) :
  (d < List.length (menus w))%nat ->
  nth_error (menus (run_callback (Hide d') w)) d
  = if Nat.eqb d' d then Some hidden_style else nth_error (menus w) d.
Proof.
  intros Hd. cbn. destruct (Nat.eqb d' d) eqn:E.
  - apply Nat.eqb_eq in E. subst. now apply nth_error_update_eq.
  - apply Nat.eqb_neq in E. now apply nth_error_update_neq.
Qed.

(** A pending hide of menu [d] that is due gets its turn, and once hidden
    the menu stays hidden while no resize is pending. *)
Lemma fire_runs_hide (d : nat) (u : timer Callback) (limit : Z) :
  callback u = Hide d -> due u <= limit ->
  forall fuel w,
    resize_pending w = false ->
    (d < List.length (menus w))%nat ->
    (In u (pending (queue w))
     /\ (forall t, In t (pending (queue w)) -> handle t = handle u -> t = u)
     /\ (List.length (pending (queue w)) <= fuel)%nat)
    \/ nth_error (menus w) d = Some hidden_style ->
    nth_error (menus (fire fuel limit w)) d = Some hidden_style.
Proof.
  intros Hcb Hdue. induction fuel as [|fuel IH]; intros w Hr Hd Hcase.
  - destruct Hcase as [(Hin & _ & Hlen) | Hm]; [|exact Hm].
    destruct (pending (queue w)); [contradiction | cbn in Hlen; lia].
  - cbn [fire]. destruct (take limit (queue w)) as [[t q]|] eqn:Ht.
    + destruct (take_some _ _ _ _ _ Ht) as (Htin & _ & _ & Hq).
      pose proof (existsb_false _ _ Hr t Htin) as Hres. cbn beta in Hres.
      destruct (callback t) as [d'|] eqn:Hct; [|discriminate Hres].
      apply IH.
      * apply false_existsb. intros v Hv.
        rewrite <- Hct in Hv. apply (step_pending limit w t q v Ht) in Hv.
        exact (existsb_false _ _ Hr v (proj1 Hv)).
      * cbn. now rewrite update_length.
      * rewrite run_hide_menu by (cbn; exact Hd). cbn [menus with_queue].
        destruct (Nat.eqb d' d) eqn:Edd; [now right|].
        destruct Hcase as [(Hin & Huniq & Hlen) | Hm]; [|now right].
        left. cbn [run_callback set_style queue with_menus with_queue].
        assert (Hne : handle u <> handle t).
        { intros Heq. assert (t = u) by (apply Huniq; auto). subst t.
          rewrite Hcb in Hct. injection Hct as <-.
          rewrite Nat.eqb_refl in Edd. discriminate. }
        rewrite Hq. repeat split.
        -- apply filter_In. split; [exact Hin|].
           apply negb_true_iff, Nat.eqb_neq. exact Hne.
        -- intros v Hv. apply filter_In in Hv. apply Huniq, Hv.
        -- assert (Hs : (List.length
                             (filter (fun v => negb (Nat.eqb (handle v)
                                                             (handle t)))
                                     (pending (queue w)))
                           < List.length (pending (queue w)))%nat).
           { apply filter_shorter with (t := t); [exact Htin|].
             now rewrite Nat.eqb_refl. }
           lia.
    + destruct Hcase as [(Hin & _) | Hm]; [|exact Hm].
      destruct (take_due Callback limit (queue w) u Hin Hdue)
        as (t & q & Hsome).
      rewrite Hsome in Ht. discriminate.
Qed.

(** X11. Leaving a nav item hides its dropdown 200 ms later: after
    [mouseleave] and 200 ms or more without another event, the dropdown is
    hidden, whatever other hides were pending. *)
Theorem leave_hides_after_200 (i d : nat) (h0 : option nat) (dt : Z)
        (w : Nav) :
  nth_error (items w) i = Some {| dropdown := Some d; hoverTimeout := h0 |} ->
  (d < List.length (menus w))%nat ->
  resize_pending w = false ->
  handles_known w = true ->
  200 <= dt ->
  nth_error (menus (elapse dt (on_mouseleave i w))) d = Some hidden_style.
Proof.
  intros Hi Hd Hr Hk Hdt.
  destruct (mouseleave_state i d h0 w Hi) as (Hp1 & Hc1 & _ & Hm1 & _).
  set (w1 := on_mouseleave i w) in *.
  set (u := {| handle := fresh (queue w); due := clock (queue w) + 200;
               callback := Hide d |}) in *.
  unfold elapse. cbn [menus with_queue].
  apply (fire_runs_hide d u); [reflexivity | cbn; lia | | |].
  - apply false_existsb. intros t Ht. rewrite Hp1 in Ht.
    apply in_app_or in Ht. destruct Ht as [Ht | [<- | []]]; [|reflexivity].
    exact (existsb_false _ _ Hr t Ht).
  - now rewrite Hm1.
  - left. rewrite Hp1. repeat split.
    + apply in_or_app. right. now left.
    + intros t Ht Hh. apply in_app_or in Ht.
      destruct Ht as [Ht | [<- | []]]; [|reflexivity].
      unfold handles_known in Hk. rewrite forallb_forall in Hk.
      specialize (Hk t Ht). apply Nat.ltb_lt in Hk. cbn in Hh. lia.
    + lia.
Qed.

Lemma leave_hides_after_200_witness :
  nth_error
    (menus (elapse 200 (on_mouseleave 0 (on_mouseenter 0 desktop)))) 0
  = Some hidden_style.
Proof.
  apply (leave_hides_after_200 0 0 None 200 (on_mouseenter 0 desktop)).
  - reflexivity.
  - cbn. lia.
  - reflexivity.
  - reflexivity.
  - lia.
Defined.

Lemma reset_wide (w : Nav) :
  768 < innerWidth w -> Forall (eq no_style) (menus (reset_dropdowns w)).
Proof.
  intros Hw. cbn. apply Forall_map.
  replace (768 <? innerWidth w) with true by (symmetry; now apply Z.ltb_lt).
  apply Forall_forall. reflexivity.
Qed.

Lemma reset_narrow (w : Nav) :
  innerWidth w <= 768 -> menus (reset_dropdowns w) = menus w.
Proof.
  intros Hw. cbn.
  replace (768 <? innerWidth w) with false by (symmetry; now apply Z.ltb_ge).
  apply map_id.
Qed.

Lemma callback_is_resize (w : Nav) (t : timer Callback) :
  no_hide_pending w = true -> In t (pending (queue w)) ->
  callback t = ResizeLater.
Proof.
  unfold no_hide_pending. rewrite forallb_forall. intros H Ht.
  specialize (H t Ht). destruct (callback t); [discriminate|reflexivity].
Qed.

Lemma step_no_hide (limit : Z) (w : Nav) (t : timer Callback)
      (q : timers Callback) :
  take limit (queue w) = Some (t, q) -> no_hide_pending w = true ->
  no_hide_pending (run_callback (callback t) (with_queue q w)) = true.
Proof.
  intros Ht H. unfold no_hide_pending. apply forallb_forall. intros v Hv.
  apply (step_pending limit w t q v Ht) in Hv.
  now rewrite (callback_is_resize w v H (proj1 Hv)).
Qed.

(** With only resize timers pending on a wide window, a due one clears
    every inline style, and they stay cleared. *)
Lemma fire_runs_reset (limit : Z) (fuel : nat) (w : Nav) :
  no_hide_pending w = true -> 768 < innerWidth w ->
  ((exists u, In u (pending (queue w)) /\ due u <= limit) /\ (1 <= fuel)%nat)
  \/ Forall (eq no_style) (menus w) ->
  Forall (eq no_style) (menus (fire fuel limit w)).
Proof.
  revert w. induction fuel as [|fuel IH]; intros w Hn Hw Hcase.
  - destruct Hcase as [[_ Hf] | Hm]; [lia | exact Hm].
  - cbn [fire]. destruct (take limit (queue w)) as [[t q]|] eqn:Ht.
    + destruct (take_some _ _ _ _ _ Ht) as (Htin & _).
      pose proof (step_no_hide limit w t q Ht Hn) as Hn'.
      rewrite (callback_is_resize w t Hn Htin) in *.
      apply IH; [exact Hn' | exact Hw |]. right.
      apply (reset_wide (with_queue _ (with_queue q w))). exact Hw.
    + destruct Hcase as [[(u & Hin & Hdue) _] | Hm]; [|exact Hm].
      destruct (take_due Callback limit (queue w) u Hin Hdue)
        as (t & q & Hsome).
      rewrite Hsome in Ht. discriminate.
Qed.

Lemma fire_narrow (limit : Z) (fuel : nat) (w : Nav) :
  no_hide_pending w = true -> innerWidth w <= 768 ->
  menus (fire fuel limit w) = menus w.
Proof.
  intros Hn Hw.
  apply (fire_invariant
    (fun w' => (no_hide_pending w' = true /\ innerWidth w' = innerWidth w)
               /\ menus w' = menus w) limit); [|auto].
  intros w' t q Ht ((Hn' & Hw') & Hm).
  destruct (take_some _ _ _ _ _ Ht) as (Htin & _).
  split; [split|].
  - exact (step_no_hide limit w' t q Ht Hn').
  - destruct (callback t); exact Hw'.
  - rewrite (callback_is_resize w' t Hn' Htin).
    rewrite <- Hm.
    apply (reset_narrow (with_queue _ (with_queue q w'))). cbn. lia.
Qed.

Lemma resize_state (width : Z) (w : Nav) :
  let w1 := on_resize width w in
  innerWidth w1 = width /\ menus w1 = menus w
  /\ exists u old,
       pending (queue w1) = (old ++ [u])%list
       /\ (forall t, In t old -> In t (pending (queue w)))
       /\ callback u = ResizeLater
       /\ due u = clock (queue w1) + 250.
Proof.
  unfold on_resize. cbn.
  destruct (resizeTimeout w) as [h|]; cbn; repeat split.
  - eexists _, _. repeat split. intros t Ht. apply filter_In in Ht. tauto.
  - eexists _, _. repeat split. auto.
Qed.

(** X12. When resizing stops, the debounced listener has run 250 ms later:
    with no hide pending, after a [resize] and 250 ms or more without
    another event every dropdown has lost its inline style on a window wider
    than 768 pixels, and none has changed on a narrower one. *)
Theorem resize_resets_after_250 (width dt : Z) (w : Nav) :
  no_hide_pending w = true ->
  250 <= dt ->
  let w' := elapse dt (on_resize width w) in
  (768 < width -> Forall (eq no_style) (menus w'))
  /\ (width <= 768 -> menus w' = menus w).
Proof.
  intros Hn Hdt.
  destruct (resize_state width w)
    as (Hw & Hm & u & old & Hp & Hold & Hcb & Hdue).
  set (w1 := on_resize width w) in *.
  assert (Hn1 : no_hide_pending w1 = true).
  { unfold no_hide_pending. apply forallb_forall. intros t Ht.
    rewrite Hp in Ht. apply in_app_or in Ht.
    destruct Ht as [Ht | [<- | []]]; [|now rewrite Hcb].
    now rewrite (callback_is_resize w t Hn (Hold t Ht)). }
  cbn zeta. unfold elapse. cbn [menus with_queue]. split; intros Hwidth.
  - apply fire_runs_reset; [exact Hn1 | lia |]. left. split.
    + exists u. split; [rewrite Hp; apply in_or_app; right; now left | lia].
    + rewrite Hp, length_app. cbn. lia.
  - rewrite fire_narrow; [exact Hm | exact Hn1 | lia].
Qed.

Lemma resize_resets_after_250_witness :
  let w := on_document_click false desktop in
  let w' := elapse 250 (on_resize 1280 w) in
  menus w = [hidden_style]
  /\ (768 < 1280 -> Forall (eq no_style) (menus w'))
  /\ (1280 <= 768 -> menus w' = menus w).
Proof.
  split; [reflexivity|].
  apply (resize_resets_after_250 1280 250 (on_document_click false desktop)).
  - reflexivity.
  - lia.
Defined.

End DropdownsFacts.

Module TopLevelFacts.
Import TopLevel.

Lemma wire_links_spec (k n : nat) (s : State) :
  wire_links k n s
  = (Return tt,
     {| elements := elements s;
        listeners := listeners s
                     ++ map (fun j => (MobileLink j, "click"%string))
                            (seq k n) |}).
Proof.
  revert k s. induction n as [|n IH]; intros k s; cbn [wire_links seq map].
  - unfold ret. rewrite app_nil_r. now destruct s.
  - unfold bind, addEventListener at 1. rewrite IH. cbn.
    now rewrite <- app_assoc.
Qed.

Lemma links_not_audio (k n : nat) (type : string) :
  ~ In (AudioElement, type)
       (map (fun j => (MobileLink j, "click"%string)) (seq k n)).
Proof.
  intros H. apply in_map_iff in H. destruct H as (j & Hj & _).
  discriminate.
Qed.

Ltac run_main :=
  unfold run_script, main, setDuration, bind, get, deref, ret, throw,
    addEventListener, set_seekBar, set_totalTimeDisplay;
  cbn [elements listeners hamburger navContainer mobileLinks audio seekBar
       totalTimeDisplay fst snd app];
  try rewrite wire_links_spec;
  cbn [elements listeners hamburger navContainer mobileLinks audio seekBar
       totalTimeDisplay fst snd app].

Ltac not_wired H :=
  exfalso; cbn in H;
  repeat match type of H with
         | _ \/ _ => destruct H as [H|H]; [discriminate|]
         | In _ (_ ++ _) => apply in_app_or in H; destruct H as [H|H]
         | In _ (map _ _) => exact (links_not_audio _ _ _ H)
         | In _ (_ :: _) => cbn in H
         | False => exact H
         end.

(** The listeners the script leaves registered. *)
Lemma script_listeners_left (e : Elements) :
  exists tail,
    listeners (snd (run_script e))
    = (Document, "DOMContentLoaded"%string)
        :: (Window, "resize"%string) :: (Window, "scroll"%string) :: tail
    /\ (hamburger e = false -> tail = [])
    /\ (In (AudioElement, "timeupdate"%string) tail <-> wirable e = true)
    /\ (completed (run_script e) = true <-> wirable e = true).
Proof.
  unfold wirable, completed.
  destruct e as [h nc n a sb tt']. destruct h.
  2:{ run_main. exists []. repeat split; try discriminate; contradiction. }
  destruct a as [a|].
  2:{ run_main. eexists. split; [reflexivity|].
      repeat split; try discriminate. intros H. not_wired H. }
  cbn [hamburger audio seekBar totalTimeDisplay andb].
  destruct (1 <=? Player.readyState a) eqn:Hr.
  - destruct sb as [sb|].
    2:{ run_main. rewrite Hr. cbn [fst snd listeners].
        eexists. split; [reflexivity|].
        repeat split; try discriminate. intros H. not_wired H. }
    destruct tt' as [html|].
    2:{ run_main. rewrite Hr. cbn [fst snd listeners].
        eexists. split; [reflexivity|].
        repeat split; try discriminate. intros H. not_wired H. }
    run_main. rewrite Hr. cbn [fst snd listeners].
    eexists. split; [reflexivity|]. repeat split; try discriminate.
    intros _. right. apply in_or_app. right. now left.
  - run_main. rewrite Hr. cbn [fst snd listeners].
    eexists. split; [reflexivity|]. repeat split; try discriminate.
    intros _. right. apply in_or_app. right. now left.
Qed.

(** X13. The audio player is wired exactly on the pages that can carry it:
    the script completes, and the [timeupdate] listener is registered, if
    and only if the menu button and the audio element exist and, when the
    metadata is already loaded, so do the seek bar and the total-time label.
    On a page without menu button no listener at all is registered on the
    audio element, while the three listeners on [document] and [window] are
    registered on every page. *)
Theorem audio_wired_iff (e : Elements) :
  (In (AudioElement, "timeupdate"%string) (listeners (snd (run_script e)))
   <-> wirable e = true)
  /\ (completed (run_script e) = true <-> wirable e = true)
  /\ (hamburger e = false ->
      forall type, ~ In (AudioElement, type) (listeners (snd (run_script e))))
  /\ In (Document, "DOMContentLoaded"%string) (listeners (snd (run_script e)))
  /\ In (Window, "resize"%string) (listeners (snd (run_script e)))
  /\ In (Window, "scroll"%string) (listeners (snd (run_script e))).
Proof.
  destruct (script_listeners_left e) as (tail & -> & Hh & Hw & Hc).
  split; [|split; [exact Hc|split]].
  - rewrite <- Hw. cbn [In]. split.
    + intros [H|[H|[H|H]]]; try discriminate. exact H.
    + auto.
  - intros Hf type. rewrite (Hh Hf). cbn [In].
    intros [H|[H|[H|[]]]]; discriminate.
  - cbn [In]. split; [|split]; tauto.
Qed.

Lemma audio_wired_iff_witness :
  completed (run_script no_hamburger) = false
  /\ forall type,
       ~ In (AudioElement, type) (listeners (snd (run_script no_hamburger))).
Proof.
  split; [reflexivity|].
  exact (proj1 (proj2 (proj2 (audio_wired_iff no_hamburger))) eq_refl).
Defined.

End TopLevelFacts.

Module ScrollRevealFacts.
Import ClassList ClassListFacts ScrollReveal DropdownsFacts.
Local Open Scope string_scope.

Lemma reveal_at (observed : list classList) (e : Entry) (k : nat)
      (cl : classList) :
  nth_error observed k = Some cl ->
  exists cl',
    nth_error (reveal observed e) k = Some cl'
    /\ contains "visible" cl'
       = contains "visible" cl || (isIntersecting e && Nat.eqb (target e) k)
    /\ forall c, c <> "visible" -> contains c cl' = contains c cl.
Proof.
  intros Hk. unfold reveal.
  destruct (isIntersecting e) eqn:Hi; cbn [andb].
  - destruct (nth_error observed (target e)) as [clt|] eqn:Ht.
    + destruct (Nat.eqb (target e) k) eqn:Hek.
      * apply Nat.eqb_eq in Hek. rewrite Hek in *.
        assert (clt = cl) by congruence. subst clt.
        exists (add "visible" cl). split.
        -- apply nth_error_update_eq. apply nth_error_Some. congruence.
        -- split.
           ++ rewrite contains_add, String.eqb_refl. cbn.
              now rewrite orb_true_r.
           ++ intros c Hc. rewrite contains_add.
              apply String.eqb_neq in Hc. now rewrite Hc.
      * apply Nat.eqb_neq in Hek. exists cl.
        rewrite nth_error_update_neq by exact Hek.
        rewrite orb_false_r. auto.
    + exists cl. destruct (Nat.eqb (target e) k) eqn:Hek.
      * apply Nat.eqb_eq in Hek. congruence.
      * rewrite orb_false_r. auto.
  - exists cl. rewrite orb_false_r. auto.
Qed.

(** X14. Scroll reveal only ever adds: after the observer's callback has
    run on any entries, an observed element carries "visible" exactly when
    it did before or one of the entries reported it as intersecting; an
    entry that is not intersecting removes nothing, and no other class
    changes. *)
Theorem reveal_is_latched (entries : list Entry) (observed : list classList)
        (k : nat) (cl : classList) :
  nth_error observed k = Some cl ->
  exists cl',
    nth_error (callback entries observed) k = Some cl'
    /\ contains "visible" cl' = contains "visible" cl || seen k entries
    /\ forall c, c <> "visible" -> contains c cl' = contains c cl.
Proof.
  revert observed cl. induction entries as [|e entries IH];
    intros observed cl Hk.
  - exists cl. cbn. rewrite orb_false_r. auto.
  - destruct (reveal_at observed e k cl Hk) as (cl1 & Hk1 & Hv1 & Hc1).
    destruct (IH _ _ Hk1) as (cl' & Hk' & Hv' & Hc').
    exists cl'. split; [exact Hk'|]. split.
    + rewrite Hv', Hv1. cbn [seen existsb]. now rewrite orb_assoc.
    + intros c Hc. rewrite Hc', Hc1; auto.
Qed.

Lemma reveal_is_latched_witness :
  exists cl',
    nth_error
      (callback [ {| target := 1; isIntersecting := true |};
                  {| target := 1; isIntersecting := false |} ]
                [["section-title"]; ["featured-card"]]) 1
    = Some cl'
    /\ contains "visible" cl' = true
    /\ forall c, c <> "visible" ->
                 contains c cl' = contains c ["featured-card"].
Proof.
  exact (reveal_is_latched
           [ {| target := 1; isIntersecting := true |};
             {| target := 1; isIntersecting := false |} ]
           [["section-title"]; ["featured-card"]] 1 ["featured-card"]
           eq_refl).
Defined.

End ScrollRevealFacts.

Module SessionFacts.
Import Num Format Player PlayerFacts Session.

Lemma drag_audio (v : number) (p : Page) :
  commands (audio (drag v p)) = commands (audio p)
  /\ paused (audio (drag v p)) = paused (audio p).
Proof. split; reflexivity. Qed.

Lemma time_advanced_audio (t : number) (p : Page) :
  commands (audio (time_advanced t p)) = commands (audio p)
  /\ paused (audio (time_advanced t p)) = paused (audio p).
Proof. unfold time_advanced. rewrite dispatch_audio. split; reflexivity. Qed.

Lemma metadata_loaded_commands (d : number) (p : Page) :
  commands (audio (metadata_loaded d p)) = commands (audio p)
  /\ paused (audio (metadata_loaded d p)) = paused (audio p).
Proof. unfold metadata_loaded. rewrite dispatch_audio. split; reflexivity. Qed.

(** Each click on the play button sends one command, decided by the
    [paused] flag the click finds. *)
Lemma togglePlay_commands (p : Page) :
  commands (audio (togglePlay p))
  = (commands (audio p) ++ [if paused (audio p) then Play else Pause])%list
  /\ paused (audio (togglePlay p)) = negb (paused (audio p)).
Proof. unfold togglePlay. destruct (paused (audio p)); split; reflexivity. Qed.

(** After a track played to its end the second click sends [play()] again:
    the element had paused itself. *)
Example played_to_end_commands :
  commands (audio (run played_to_end fresh)) = [Play; Play]
  /\ paused (audio (run played_to_end fresh)) = false
  /\ playBtn (run played_to_end fresh) = "||"%string.
Proof. split; [|split]; reflexivity. Qed.

Lemma run_app (xs ys : list Action) (p : Page) :
  run (xs ++ ys) p = run ys (run xs p).
Proof. apply fold_left_app. Qed.

(** X15. One [togglePlay], one command: whatever dragging, clock updates,
    metadata events and changes of [paused] by the element itself come in
    between, the script sends the audio element one command per click on
    the play button.  As long as only the script changes [paused], the
    commands alternate between [play()] and [pause()], starting with
    [play()] when the audio was paused, and the [paused] flag has flipped
    once per click.  A click that follows a change of [paused] by the
    element sends the command that the element's flag asks for: [play()]
    once more after the element has paused itself. *)
Theorem commands_alternate (actions : list Action) (p : Page) :
  (exists sent : list MediaCommand,
     commands (audio (run actions p)) = (commands (audio p) ++ sent)%list
     /\ List.length sent = toggles actions)
  /\ (script_only actions = true ->
      commands (audio (run actions p))
      = (commands (audio p)
           ++ alternating (paused (audio p)) (toggles actions))%list
      /\ paused (audio (run actions p))
         = if Nat.even (toggles actions) then paused (audio p)
           else negb (paused (audio p)))
  /\ (forall b : bool,
        commands (audio (run (actions ++ [Element b; Toggle]) p))
        = (commands (audio (run actions p))
             ++ [if b then Play else Pause])%list).
Proof.
  split; [|split].
  3: { intros b. rewrite run_app. cbn [run fold_left act].
       now destruct (togglePlay_commands
                       (set_audio (set_paused b (audio (run actions p)))
                                  (run actions p))) as [-> _]. }
  - revert p. induction actions as [|a actions IH]; intros p.
    + exists []. cbn. now rewrite app_nil_r.
    + cbn [run fold_left]. fold (run actions (act p a)).
      destruct (IH (act p a)) as (sent & Hc & Hl). rewrite Hc.
      destruct a as [|v|t|d|b]; cbn [act].
      * destruct (togglePlay_commands p) as [-> _].
        exists ((if paused (audio p) then Play else Pause) :: sent).
        rewrite <- app_assoc. split; [reflexivity|].
        change (toggles (Toggle :: actions)) with (S (toggles actions)).
        cbn [List.length]. now rewrite Hl.
      * destruct (drag_audio v p) as [-> _]. now exists sent.
      * destruct (time_advanced_audio t p) as [-> _]. now exists sent.
      * destruct (metadata_loaded_commands d p) as [-> _]. now exists sent.
      * now exists sent.
  - revert p. induction actions as [|a actions IH]; intros p Hs.
    + cbn. now rewrite app_nil_r.
    + cbn [run fold_left]. fold (run actions (act p a)).
      cbn [script_only forallb] in Hs. apply andb_true_iff in Hs.
      destruct Hs as [Ha Hs].
      destruct (IH (act p a) Hs) as [Hc Hp]. rewrite Hc, Hp.
      destruct a as [|v|t|d|b]; cbn [act]; [| | | |discriminate Ha].
      * change (toggles (Toggle :: actions)) with (S (toggles actions)).
        rewrite Nat.even_succ, <- Nat.negb_even.
        destruct (togglePlay_commands p) as [-> ->].
        rewrite <- app_assoc. cbn [app alternating].
        split; [reflexivity|].
        destruct (Nat.even (toggles actions)), (paused (audio p));
          reflexivity.
      * change (toggles (Drag v :: actions)) with (toggles actions).
        destruct (drag_audio v p) as [-> ->]. now split.
      * change (toggles (Advance t :: actions)) with (toggles actions).
        destruct (time_advanced_audio t p) as [-> ->]. now split.
      * change (toggles (Loaded d :: actions)) with (toggles actions).
        destruct (metadata_loaded_commands d p) as [-> ->]. now split.
Qed.

Lemma commands_alternate_witness :
  commands (audio (run [Toggle; Drag (of_Z 30); Advance (of_Z 31); Toggle;
                        Loaded (of_Z 185); Toggle] fresh))
  = [Play; Pause; Play]
  /\ paused (audio (run [Toggle; Drag (of_Z 30); Advance (of_Z 31); Toggle;
                         Loaded (of_Z 185); Toggle] fresh)) = false.
Proof.
  exact (proj1 (proj2 (commands_alternate
                         [Toggle; Drag (of_Z 30); Advance (of_Z 31); Toggle;
                          Loaded (of_Z 185); Toggle] fresh)) eq_refl).
Defined.

(** X16. A [timeupdate] that arrives right after a seek changes nothing:
    the seek bar and the label already show the position sought. *)
Theorem timeupdate_after_seek (p : Page) :
  on_timeupdate (handleSeek p) = handleSeek p.
Proof.
  unfold on_timeupdate.
  destruct (negb (paused (audio (handleSeek p)))); [|reflexivity].
  destruct p as [a b sb ctd ttd ls]. unfold handleSeek, set_seekBar.
  cbn [audio seekBar playBtn currentTimeDisplay totalTimeDisplay listeners
       set_audio set_currentTime set_currentTimeDisplay currentTime].
  now rewrite set_value_held.
Qed.

End SessionFacts.

Module LabelFacts.
Import Num Format FormatFacts.

Lemma all_digits_NilEmpty (d : Decimal.uint) :
  all_digits (NilEmpty.string_of_uint d) = true.
Proof. induction d; cbn; auto. Qed.

(** The decimal string of an integer is one or more digits. *)
Lemma all_digits_digits (z : Z) :
  all_digits (digits z) = true /\ (1 <= String.length (digits z))%nat.
Proof.
  unfold digits, NilZero.string_of_uint.
  destruct (N.to_uint (Z.to_N z)); cbn;
    (split; [try apply all_digits_NilEmpty; reflexivity | lia]).
Qed.

Lemma digit_not_colon (c : ascii) :
  is_digit c = true -> Ascii.eqb c ":" = false.
Proof.
  intros H. apply Ascii.eqb_neq. intros ->. discriminate H.
Qed.

(** A colon after digits is where [split_colon] splits. *)
Lemma split_colon_digits (a b : string) :
  all_digits a = true ->
  split_colon (a ++ String ":" b) = Some (a, b).
Proof.
  induction a as [|c a IH]; cbn; [reflexivity|].
  intros H. apply andb_true_iff in H. destruct H as [Hc Ha].
  now rewrite (digit_not_colon c Hc), (IH Ha).
Qed.

Lemma digit_is_digit (d : Z) : 0 <= d <= 9 -> is_digit (digit d) = true.
Proof.
  intros H. unfold is_digit, digit.
  rewrite nat_ascii_embedding by lia.
  apply andb_true_iff. split; apply Nat.leb_le; lia.
Qed.

Lemma digit_inj (d d' : Z) :
  0 <= d <= 9 -> 0 <= d' <= 9 -> digit d = digit d' -> d = d'.
Proof.
  intros H H' E. unfold digit in E.
  apply (f_equal nat_of_ascii) in E.
  rewrite !nat_ascii_embedding in E by lia. lia.
Qed.

Lemma two_digits_shape (q : Z) :
  0 <= q < 60 ->
  all_digits (two_digits q) = true /\ String.length (two_digits q) = 2%nat.
Proof.
  intros H. unfold two_digits. cbn [all_digits String.length].
  assert (0 <= q / 10 <= 9)
    by (split; [apply Z.div_pos | apply Z.div_le_upper_bound]; lia).
  assert (0 <= q mod 10 < 10) by (apply Z.mod_pos_bound; lia).
  rewrite !digit_is_digit by lia. auto.
Qed.

Lemma two_digits_inj (q q' : Z) :
  0 <= q < 60 -> 0 <= q' < 60 -> two_digits q = two_digits q' -> q = q'.
Proof.
  intros H H' E. unfold two_digits in E. injection E as E1 E2.
  assert (0 <= q / 10 <= 9)
    by (split; [apply Z.div_pos | apply Z.div_le_upper_bound]; lia).
  assert (0 <= q' / 10 <= 9)
    by (split; [apply Z.div_pos | apply Z.div_le_upper_bound]; lia).
  assert (0 <= q mod 10 < 10) by (apply Z.mod_pos_bound; lia).
  assert (0 <= q' mod 10 < 10) by (apply Z.mod_pos_bound; lia).
  apply digit_inj in E1; [|lia|lia]. apply digit_inj in E2; [|lia|lia].
  rewrite (Z.div_mod q 10), (Z.div_mod q' 10) by lia. lia.
Qed.

Lemma to_uint_not_Nil (n : N) : N.to_uint n <> Decimal.Nil.
Proof.
  destruct n as [|p]; [discriminate|]. cbn.
  apply DecimalPos.Unsigned.to_uint_nonnil.
Qed.

Lemma digits_inj (z z' : Z) :
  0 <= z -> 0 <= z' -> digits z = digits z' -> z = z'.
Proof.
  intros H H' E. unfold digits in E.
  apply (f_equal NilZero.uint_of_string) in E.
  rewrite !NilZero.usu in E by apply to_uint_not_Nil.
  injection E as E. apply DecimalN.Unsigned.to_uint_inj in E. lia.
Qed.

(** X17. Below one hour the label is well formed and tells the seconds
    apart: for whole seconds [n < 3600], [formatTime n] has the shape
    [M:SS], and two different whole seconds never format alike. *)
Theorem label_below_hour (n : Z) :
  0 <= n < 3600 ->
  is_M_SS (formatTime (of_Z n)) = true
  /\ forall m, 0 <= m < 3600 ->
               formatTime (of_Z m) = formatTime (of_Z n) -> m = n.
Proof.
  intros Hn.
  assert (Hq : forall k, 0 <= k < 3600 -> 0 <= k / 60 /\ 0 <= k mod 60 < 60).
  { intros k Hk. split; [apply Z.div_pos; lia | apply Z.mod_pos_bound; lia]. }
  destruct (Hq n Hn) as [Hmin Hsec].
  rewrite (formatTime_whole_seconds n Hn).
  destruct (all_digits_digits (n / 60)) as [Hd Hl].
  destruct (two_digits_shape (n mod 60) Hsec) as [Ht Hl2].
  split.
  - unfold is_M_SS. cbn [append]. rewrite (split_colon_digits _ _ Hd).
    rewrite Hd, Ht, Hl2. apply Nat.leb_le in Hl. rewrite Hl. reflexivity.
  - intros m Hm E. rewrite (formatTime_whole_seconds m Hm) in E.
    destruct (Hq m Hm) as [Hmin' Hsec'].
    apply (f_equal split_colon) in E. cbn [append] in E.
    rewrite (split_colon_digits _ _ Hd) in E.
    rewrite (split_colon_digits _ _ (proj1 (all_digits_digits (m / 60)))) in E.
    assert (E1 : digits (m / 60) = digits (n / 60)) by congruence.
    assert (E2 : two_digits (m mod 60) = two_digits (n mod 60))
      by congruence.
    apply digits_inj in E1; [|lia|lia].
    apply two_digits_inj in E2; [|lia|lia].
    rewrite (Z.div_mod m 60), (Z.div_mod n 60) by lia. lia.
Qed.

Lemma label_below_hour_witness :
  is_M_SS (formatTime (of_Z 185)) = true
  /\ forall m, 0 <= m < 3600 ->
               formatTime (of_Z m) = formatTime (of_Z 185) -> m = 185.
Proof. apply (label_below_hour 185). lia. Defined.

End LabelFacts.
